(** * The immutable HTTP client-request builder of [@effect/platform]

    A shallow embedding of
    [packages/platform/src/internal/http/clientRequest.ts] and of the
    platform primitives it calls, followed by the properties established
    about it. *)

From Stdlib Require Import String Ascii DecimalString.
From stdpp Require Import base option numbers list gmap fin_maps.

Local Open Scope N_scope.

(** ** JavaScript primitives *)

Module Js.

(** A JavaScript string is a sequence of UTF-16 code units. Code units
    are kept as [N]; nothing below depends on the bound [2^16]. *)
Abbreviation str := (list N) (only parsing).

(** String literals of the source are written [lit "..."]. *)
Fixpoint lit (s : string) : str :=
  match s with
  | EmptyString => []
  | String a s' => N_of_ascii a :: lit s'
  end.

Definition slash : N := 47.
Definition colon : N := 58.
Definition question : N := 63.
Definition numberSign : N := 35.

(** [s.startsWith(c)] and [s.endsWith(c)] for a one-character [c]. *)
Definition startsWith (c : N) (s : str) : bool :=
  match s with
  | x :: _ => bool_decide (x = c)
  | [] => false
  end.

Definition endsWith (c : N) (s : str) : bool :=
  match last s with
  | Some x => bool_decide (x = c)
  | None => false
  end.

(** [s.slice(1)] *)
Definition slice1 (s : str) : str := drop 1 s.

(** [s.toLowerCase()]. Only the ASCII letters are mapped; case mapping
    of other code units is left out of the model. *)
Definition lowerUnit (c : N) : N :=
  if (65 <=? c) && (c <=? 90) then c + 32 else c.

Definition toLowerCase (s : str) : str := lowerUnit <$> s.

(** Truthiness of a string: the empty string is falsy. *)
Definition truthyStr (s : str) : bool :=
  match s with [] => false | _ => true end.

(** A [number] is modelled by an integer; fractions, infinities and NaN
    are outside the model. Zero is the only falsy integer. *)
Definition truthyNum (n : Z) : bool := negb (Z.eqb n 0).

(** [n.toString()] for an integer [n]: decimal digits, with a minus
    sign for a negative one. *)
Definition numberToString (n : Z) : str :=
  lit (DecimalString.NilZero.string_of_int (Z.to_int n)).

(** What a platform primitive can throw. *)
Inductive Exception := InvalidCharacterError | TypeError.

(** [new TextEncoder().encode(s)]: the UTF-8 bytes of [s]. A surrogate
    pair is one code point of four bytes; a lone surrogate is encoded
    as U+FFFD. *)
Definition isHigh (c : N) : bool := (0xD800 <=? c) && (c <? 0xDC00).
Definition isLow (c : N) : bool := (0xDC00 <=? c) && (c <? 0xE000).
Definition replacement : list N := [0xEF; 0xBF; 0xBD].

Definition utf8_3 (c : N) : list N :=
  [0xE0 + c / 0x1000; 0x80 + (c / 0x40) mod 0x40; 0x80 + c mod 0x40].

Definition utf8_4 (cp : N) : list N :=
  [0xF0 + cp / 0x40000; 0x80 + (cp / 0x1000) mod 0x40;
   0x80 + (cp / 0x40) mod 0x40; 0x80 + cp mod 0x40].

Fixpoint utf8 (s : str) : list N :=
  match s with
  | [] => []
  | c :: s' =>
      if c <? 0x80 then c :: utf8 s'
      else if c <? 0x800 then (0xC0 + c / 0x40) :: (0x80 + c mod 0x40) :: utf8 s'
      else if isHigh c then
        match s' with
        | d :: s'' =>
            if isLow d
            then utf8_4 (0x10000 + (c - 0xD800) * 0x400 + (d - 0xDC00)) ++ utf8 s''
            else replacement ++ utf8 s'
        | [] => replacement
        end
      else if isLow c then replacement ++ utf8 s'
      else utf8_3 c ++ utf8 s'
  end.

(** *** Base64: [btoa] *)

Definition b64char (i : N) : N :=
  if i <? 26 then 65 + i
  else if i <? 52 then 97 + (i - 26)
  else if i <? 62 then 48 + (i - 52)
  else if i =? 62 then 43
  else 47.

Definition pad : N := 61.

Fixpoint base64 (bs : list N) : str :=
  match bs with
  | [] => []
  | [a] => [b64char (a / 4); b64char (a mod 4 * 16); pad; pad]
  | [a; b] =>
      [b64char (a / 4); b64char (a mod 4 * 16 + b / 16);
       b64char (b mod 16 * 4); pad]
  | a :: b :: c :: rest =>
      b64char (a / 4) :: b64char (a mod 4 * 16 + b / 16)
      :: b64char (b mod 16 * 4 + c / 64) :: b64char (c mod 64)
      :: base64 rest
  end.

(** A binary string has only code units up to 0xFF. *)
Definition isLatin1 (s : str) : bool := forallb (fun c => c <=? 255) s.

(** [btoa(s)] throws [InvalidCharacterError] when [s] has a code unit
    above 0xFF, and is the base64 text of the code units otherwise. *)
Definition btoa (s : str) : Exception + str :=
  if isLatin1 s then inr (base64 s) else inl InvalidCharacterError.

(** The inverse reading of the alphabet, and [atob] on padded input;
    used to say what "a base64 encoding of" means. *)
Definition b64index (c : N) : option N :=
  if (65 <=? c) && (c <=? 90) then Some (c - 65)
  else if (97 <=? c) && (c <=? 122) then Some (c - 97 + 26)
  else if (48 <=? c) && (c <=? 57) then Some (c - 48 + 52)
  else if c =? 43 then Some 62
  else if c =? 47 then Some 63
  else None.

Definition unbase64_last (w x y z : N) : option (list N) :=
  i ← b64index w; j ← b64index x;
  if bool_decide (y = pad) then
    if bool_decide (z = pad) then Some [i * 4 + j / 16] else None
  else
    k ← b64index y;
    if bool_decide (z = pad)
    then Some [i * 4 + j / 16; j mod 16 * 16 + k / 4]
    else l ← b64index z;
         Some [i * 4 + j / 16; j mod 16 * 16 + k / 4; k mod 4 * 64 + l].

Fixpoint atob (s : str) : option (list N) :=
  match s with
  | [] => Some []
  | w :: x :: y :: z :: rest =>
      match rest with
      | [] => unbase64_last w x y z
      | _ =>
          i ← b64index w; j ← b64index x; k ← b64index y; l ← b64index z;
          r ← atob rest;
          Some (i * 4 + j / 16 :: j mod 16 * 16 + k / 4 :: k mod 4 * 64 + l :: r)
      end
  | _ => None
  end.

(** *** [URL] and [URLSearchParams]

    A URL object is kept as its serialised scheme-host-path part, its
    query and its fragment, the two being [None] when the URL has none.
    Parsing splits at the first [#] and, before it, at the first [?];
    validation and normalisation of the scheme-host-path part and
    percent-encoding by the parser are not modelled, so a parsed string
    is taken to be in normal form already. *)
Record URL := mkURL { base : str; query : option str; fragment : option str }.

Fixpoint splitAt (c : N) (s : str) : str * option str :=
  match s with
  | [] => ([], None)
  | x :: s' =>
      if bool_decide (x = c) then ([], Some s')
      else let '(a, b) := splitAt c s' in (x :: a, b)
  end.

(** [new URL(s)] *)
Definition newURL (s : str) : URL :=
  let '(s1, f) := splitAt numberSign s in
  let '(b, q) := splitAt question s1 in
  mkURL b q f.

Definition withMark (c : N) (o : option str) : str :=
  match o with Some x => c :: x | None => [] end.

(** [u.toString()] *)
Definition toString (u : URL) : str :=
  base u ++ withMark question (query u) ++ withMark numberSign (fragment u).

(** [u.hash]: empty when the fragment is absent or empty. *)
Definition getHash (u : URL) : str :=
  match fragment u with
  | Some (c :: f) => numberSign :: c :: f
  | _ => []
  end.

(** [u.search = ""] and [u.hash = ""] *)
Definition clearSearch (u : URL) : URL := mkURL (base u) None (fragment u).
Definition clearHash (u : URL) : URL := mkURL (base u) (query u) None.

(** [s.split(c)] *)
Fixpoint splitOn (c : N) (s : str) : list str :=
  match s with
  | [] => [[]]
  | x :: s' =>
      if bool_decide (x = c) then [] :: splitOn c s'
      else match splitOn c s' with
           | h :: t => (x :: h) :: t
           | [] => [[x]]
           end
  end.

Definition hexval (c : N) : option N :=
  if (48 <=? c) && (c <=? 57) then Some (c - 48)
  else if (65 <=? c) && (c <=? 70) then Some (c - 55)
  else if (97 <=? c) && (c <=? 102) then Some (c - 87)
  else None.

Definition percent : N := 37.

Fixpoint percentDecode (s : str) : list N :=
  match s with
  | [] => []
  | c :: s' =>
      if bool_decide (c = percent) then
        match s' with
        | h :: l :: s'' =>
            match hexval h, hexval l with
            | Some a, Some b => a * 16 + b :: percentDecode s''
            | _, _ => c :: percentDecode s'
            end
        | _ => c :: percentDecode s'
        end
      else c :: percentDecode s'
  end.

Definition plusToSpace (s : str) : str :=
  (fun c => if bool_decide (c = 43) then 32 else c) <$> s.

(** The [application/x-www-form-urlencoded] parser behind
    [u.searchParams]. The bytes after percent-decoding are kept as code
    units: UTF-8 decoding is the identity on ASCII, and other bytes are
    outside the model. *)
Definition parsePair (s : str) : str * str :=
  let '(k, v) := splitAt 61 s in
  (percentDecode (plusToSpace k), percentDecode (plusToSpace (default [] v))).

Definition parseUrlencoded (q : str) : list (str * str) :=
  parsePair <$> filter (fun s => s ≠ []) (splitOn 38 q).

Definition searchParams (u : URL) : list (str * str) :=
  match query u with
  | Some q => parseUrlencoded q
  | None => []
  end.

(** The [application/x-www-form-urlencoded] serialiser behind
    [new URLSearchParams(l).toString()]. *)
Definition hexdigit (n : N) : N := if n <? 10 then 48 + n else 55 + n.

Definition isUrlencodedSafe (b : N) : bool :=
  ((48 <=? b) && (b <=? 57)) || ((65 <=? b) && (b <=? 90))
  || ((97 <=? b) && (b <=? 122))
  || bool_decide (b = 42) || bool_decide (b = 45)
  || bool_decide (b = 46) || bool_decide (b = 95).

Definition urlencodeByte (b : N) : str :=
  if bool_decide (b = 32) then [43]
  else if isUrlencodedSafe b then [b]
  else [percent; hexdigit (b / 16); hexdigit (b mod 16)].

Definition urlencode (s : str) : str := utf8 s ≫= urlencodeByte.

Fixpoint joinWith (sep : str) (l : list str) : str :=
  match l with
  | [] => []
  | [x] => x
  | x :: l' => x ++ sep ++ joinWith sep l'
  end.

Definition serializeUrlencoded (l : list (str * str)) : str :=
  joinWith [38] ((fun p => urlencode p.1 ++ [61] ++ urlencode p.2) <$> l).

(** *** [JSON.stringify]

    A fragment of the values of type [unknown]: enough to hold a value
    that [JSON.stringify] serialises and one that it refuses (a BigInt, at
    any depth, makes it throw a [TypeError]). *)
Inductive unknown :=
| VNull
| VBool (b : bool)
| VBigInt (z : Z)
| VArray (items : list unknown).

Fixpoint JSON_stringify (v : unknown) : Exception + str :=
  match v with
  | VNull => inr (lit "null")
  | VBool true => inr (lit "true")
  | VBool false => inr (lit "false")
  | VBigInt _ => inl TypeError
  | VArray items =>
      let fix each (l : list unknown) : Exception + list str :=
        match l with
        | [] => inr []
        | x :: l' =>
            match JSON_stringify x with
            | inl e => inl e
            | inr sx =>
                match each l' with
                | inl e => inl e
                | inr sl => inr (sx :: sl)
                end
            end
        end in
      match each items with
      | inl e => inl e
      | inr parts => inr ([91] ++ joinWith [44] parts ++ [93])
      end
  end.

End Js.

Abbreviation str := (list N) (only parsing).
Abbreviation lit := Js.lit (only parsing).


(** ** The helper modules the request builder imports *)

(** Modelled from the spec: the method enumeration of [Http/Method.ts],
    which is not among the sources: "one of a fixed enumeration (GET, POST,
    PUT, PATCH, DELETE, HEAD, OPTIONS, ...)". *)
Inductive Method := GET | POST | PUT | PATCH | DELETE | HEAD | OPTIONS.

Module Headers.

(** Modelled from the spec: the header map of [Http/Headers.ts], which
    is not among the sources: a "mapping from case-insensitive header
    name to string value, last-write-wins on collision". Names are
    stored in lower case. *)
Abbreviation Headers := (gmap (list N) (list N)) (only parsing).

(** Modelled from the spec: the input accepted for several headers at
    once, as its list of name and value entries. *)
Definition Input := list (str * str).

(** Modelled from the spec: the map without headers. *)
Definition empty : Headers := ∅.

(** Modelled from the spec: [Headers.set], one write to the map under
    the case-insensitive name. *)
Definition set (self : Headers) (key value : str) : Headers :=
  <[Js.toLowerCase key := value]> self.

(** Modelled from the spec: [Headers.remove], under the
    case-insensitive name. *)
Definition remove (self : Headers) (key : str) : Headers :=
  delete (Js.toLowerCase key) self.

(** Modelled from the spec: [Headers.fromInput], writing the entries in
    their order, so the last write of a name wins. *)
Definition fromInput (input : Input) : Headers :=
  foldl (fun m p => set m p.1 p.2) ∅ input.

(** Modelled from the spec: [Headers.setAll], the entries of the input
    written over the map. *)
Definition setAll (self : Headers) (input : Input) : Headers :=
  fromInput input ∪ self.

End Headers.

Module UrlParams.

(** Modelled from the spec: the query parameters of [Http/UrlParams.ts],
    which is not among the sources: an "ordered sequence of (key, value)
    string pairs; duplicate keys permitted and preserved in insertion
    order". *)
Definition UrlParams := list (str * str).

(** Modelled from the spec: the input accepted for several parameters,
    as its list of entries. *)
Definition Input := list (str * str).

(** Modelled from the spec: no parameters. *)
Definition empty : UrlParams := [].

(** Modelled from the spec: [UrlParams.fromInput], the entries in their
    order. *)
Definition fromInput (input : Input) : UrlParams := input.

(** Modelled from the spec: [UrlParams.append], insertion at the end. *)
Definition append (self : UrlParams) (key value : str) : UrlParams :=
  self ++ [(key, value)].

(** Modelled from the spec: [UrlParams.appendAll]. *)
Definition appendAll (self : UrlParams) (input : Input) : UrlParams :=
  self ++ fromInput input.

(** Modelled from the spec: [UrlParams.set], which drops the pairs of
    the key and inserts the new pair at the end. *)
Definition set (self : UrlParams) (key value : str) : UrlParams :=
  filter (fun p => p.1 ≠ key) self ++ [(key, value)].

(** Modelled from the spec: [UrlParams.setAll], which drops the pairs
    of every key of the input and inserts the input at the end. *)
Definition setAll (self : UrlParams) (input : Input) : UrlParams :=
  filter (fun p => p.1 ∉ (fst <$> fromInput input)) self ++ fromInput input.

(** Modelled from the spec: [UrlParams.toString], the "encoded
    parameters". *)
Definition toString (self : UrlParams) : str := Js.serializeUrlencoded self.

End UrlParams.

Module Body.

(** Modelled from the spec: the body of [Http/Body.ts], which is not
    among the sources: a "tagged variant - Empty | Raw bytes (with
    content-type, optional content-length) | Text (with content-type) |
    FormEncoded | Streamed (with content-type, optional
    content-length)". *)
Inductive Body :=
| Empty
| Raw (bytes : list N) (contentType : str) (contentLength : option Z)
| Text (text : str) (contentType : str)
| FormEncoded (fields : list (str * str))
| Streamed (chunks : list (list N)) (contentType : str) (contentLength : option Z).

(** Modelled from the spec: the property [body.contentType], undefined
    on a variant that carries none. *)
Definition contentType (b : Body) : option str :=
  match b with
  | Raw _ ct _ | Text _ ct | Streamed _ ct _ => Some ct
  | Empty | FormEncoded _ => None
  end.

(** Modelled from the spec: the property [body.contentLength]. A text
    has the length of its UTF-8 encoding ("hi" has length 2). *)
Definition contentLength (b : Body) : option Z :=
  match b with
  | Raw _ _ cl | Streamed _ _ cl => cl
  | Text t _ => Some (Z.of_nat (length (Js.utf8 t)))
  | Empty | FormEncoded _ => None
  end.

(** Modelled from the spec: the two recoverable failures, of
    [Http/Body.ts] and of [Error.ts]. *)
Inductive BodyError := JsonError (e : Js.Exception) | SchemaError (issue : str).
Inductive PlatformError := NotFound | PermissionDenied.

End Body.

(** Effects. [Effect<A, E, R>] is a deferred computation that, run with
    the services [R], fails with an [E] or succeeds with an [A]. *)
Module Effect.

Definition Effect (A E R : Type) : Type := R → E + A.

Definition succeed {A E R} (a : A) : Effect A E R := fun _ => inr a.
Definition fail {A E R} (e : E) : Effect A E R := fun _ => inl e.

(** [Effect.map(self, f)] *)
Definition map {A B E R} (self : Effect A E R) (f : A → B) : Effect B E R :=
  fun r => match self r with
           | inl e => inl e
           | inr a => inr (f a)
           end.

(** [Effect.try({ try, catch })] on a computation that may throw. *)
Definition try {A E R} (thunk : Js.Exception + A) (catch : Js.Exception → E)
  : Effect A E R :=
  fun _ => match thunk with
           | inl x => inl (catch x)
           | inr a => inr a
           end.

End Effect.

Module FileSystem.

(** Modelled from the spec: the file-system service of [FileSystem.ts],
    which is not among the sources: "a capability to stream a file's
    bytes and report its size". *)
Record FileSystem := {
  stat : str → Body.PlatformError + Z;
  stream : str → list (list N)
}.

End FileSystem.

Module internalBody.

Import Body.

(** Modelled from the spec: the constructors of [internal/http/body.ts],
    which is not among the sources, one per variant of the body. *)
Definition empty : Body := Empty.

(** Modelled from the spec: a binary body has the length of its bytes. *)
Definition uint8Array (body : list N) (contentType : str) : Body :=
  Raw body contentType (Some (Z.of_nat (length body))).

(** Modelled from the spec: a text body. *)
Definition text (body : str) (contentType : str) : Body := Text body contentType.

(** Modelled from the spec: a form body carries no content type and no
    content length of its own. *)
Definition formData (body : list (str * str)) : Body := FormEncoded body.

(** Modelled from the spec: a streamed body, with its optional length. *)
Definition stream (body : list (list N)) (contentType : str)
  (contentLength : option Z) : Body :=
  Streamed body contentType contentLength.

(** Modelled from the spec: a web file is streamed with its own type and
    size. *)
Definition fileWeb (file : list (list N) * str * Z) : Body :=
  Streamed file.1.1 file.1.2 (Some file.2).

(** Modelled from the spec: [unsafeJson] of [internal/http/body.ts],
    which is not among the sources: a text body of type
    "application/json" holding [JSON.stringify(body)]. The call throws
    when [JSON.stringify] does; the source names the setter built on it
    [unsafeJsonBody]. *)
Definition unsafeJson (body : Js.unknown) : Js.Exception + Body :=
  match Js.JSON_stringify body with
  | inl x => inl x
  | inr s => inr (text s (lit "application/json"))
  end.

(** Modelled from the spec: [json] of [internal/http/body.ts], which is
    not among the sources: the same body as a deferred computation, what
    [JSON.stringify] throws being caught as a body error. The source gives
    [jsonBody], which maps over it, the error type [Body.BodyError]. *)
Definition json (body : Js.unknown) : Effect.Effect Body BodyError unit :=
  Effect.try (unsafeJson body) JsonError.

(** Modelled from the spec: the file body, "a fallible filesystem read"
    through the injected service. *)
Definition file (path : str) (contentType : option str)
  : Effect.Effect Body PlatformError FileSystem.FileSystem :=
  fun fs => match FileSystem.stat fs path with
            | inl e => inl e
            | inr size =>
                inr (stream (FileSystem.stream fs path)
                       (default (lit "application/octet-stream") contentType)
                       (Some size))
            end.

End internalBody.

(** ** [internal/http/clientRequest.ts] *)

Module ClientRequest.

(** The argument [url: string | URL]. *)
Inductive UrlInput := UrlString (s : str) | UrlObject (u : Js.URL).

(** A request object has the six fields that [makeInternal] assigns;
    [makeInternal] is the only constructor of requests. *)
Record ClientRequest := makeInternal {
  method : Method;
  url : str;
  urlParams : UrlParams.UrlParams;
  hash : option str;
  headers : Headers.Headers;
  body : Body.Body
}.

Definition empty : ClientRequest :=
  makeInternal GET [] UrlParams.empty None Headers.empty internalBody.empty.

(** The functions built with [dual] are given in their data-first form;
    the data-last form is the same function with [self] supplied last. *)

Definition setHeader (self : ClientRequest) (key value : str) : ClientRequest :=
  makeInternal
    (method self)
    (url self)
    (urlParams self)
    (hash self)
    (Headers.set (headers self) key value)
    (body self).

Definition setHeaders (self : ClientRequest) (input : Headers.Input) : ClientRequest :=
  makeInternal
    (method self)
    (url self)
    (urlParams self)
    (hash self)
    (Headers.setAll (headers self) input)
    (body self).

(** [btoa] may throw, and [basicAuth] does not catch. *)
Definition basicAuth (self : ClientRequest) (username password : str)
  : Js.Exception + ClientRequest :=
  match Js.btoa (username ++ [Js.colon] ++ password) with
  | inl thrown => inl thrown
  | inr b64 => inr (setHeader self (lit "Authorization") (lit "Basic " ++ b64))
  end.

Definition bearerToken (self : ClientRequest) (token : str) : ClientRequest :=
  setHeader self (lit "Authorization") (lit "Bearer " ++ token).

Definition accept (self : ClientRequest) (mediaType : str) : ClientRequest :=
  setHeader self (lit "Accept") mediaType.

Definition acceptJson (self : ClientRequest) : ClientRequest :=
  accept self (lit "application/json").

Definition setMethod (self : ClientRequest) (method' : Method) : ClientRequest :=
  makeInternal
    method'
    (url self)
    (urlParams self)
    (hash self)
    (headers self)
    (body self).

Definition setUrl (self : ClientRequest) (url' : UrlInput) : ClientRequest :=
  match url' with
  | UrlString s =>
      makeInternal
        (method self)
        s
        (urlParams self)
        (hash self)
        (headers self)
        (body self)
  | UrlObject u =>
      let clone := Js.newURL (Js.toString u) in
      let urlParams' := UrlParams.fromInput (Js.searchParams clone) in
      let hash' :=
        if Js.truthyStr (Js.getHash clone)
        then Some (Js.slice1 (Js.getHash clone))
        else None in
      let clone := Js.clearSearch clone in
      let clone := Js.clearHash clone in
      makeInternal
        (method self)
        (Js.toString clone)
        urlParams'
        hash'
        (headers self)
        (body self)
  end.

Definition appendUrl (self : ClientRequest) (path : str) : ClientRequest :=
  makeInternal
    (method self)
    (if Js.endsWith Js.slash (url self) && Js.startsWith Js.slash path
     then url self ++ Js.slice1 path
     else url self ++ path)
    (urlParams self)
    (hash self)
    (headers self)
    (body self).

Definition prependUrl (self : ClientRequest) (path : str) : ClientRequest :=
  makeInternal
    (method self)
    (if Js.endsWith Js.slash path && Js.startsWith Js.slash (url self)
     then path ++ Js.slice1 (url self)
     else path ++ url self)
    (urlParams self)
    (hash self)
    (headers self)
    (body self).

Definition updateUrl (self : ClientRequest) (f : str → str) : ClientRequest :=
  makeInternal
    (method self)
    (f (url self))
    (urlParams self)
    (hash self)
    (headers self)
    (body self).

Definition appendUrlParam (self : ClientRequest) (key value : str) : ClientRequest :=
  makeInternal
    (method self)
    (url self)
    (UrlParams.append (urlParams self) key value)
    (hash self)
    (headers self)
    (body self).

Definition appendUrlParams (self : ClientRequest) (input : UrlParams.Input) : ClientRequest :=
  makeInternal
    (method self)
    (url self)
    (UrlParams.appendAll (urlParams self) input)
    (hash self)
    (headers self)
    (body self).

Definition setUrlParam (self : ClientRequest) (key value : str) : ClientRequest :=
  makeInternal
    (method self)
    (url self)
    (UrlParams.set (urlParams self) key value)
    (hash self)
    (headers self)
    (body self).

Definition setUrlParams (self : ClientRequest) (input : UrlParams.Input) : ClientRequest :=
  makeInternal
    (method self)
    (url self)
    (UrlParams.setAll (urlParams self) input)
    (hash self)
    (headers self)
    (body self).

Definition setHash (self : ClientRequest) (hash' : str) : ClientRequest :=
  makeInternal
    (method self)
    (url self)
    (urlParams self)
    (Some hash')
    (headers self)
    (body self).

Definition removeHash (self : ClientRequest) : ClientRequest :=
  makeInternal
    (method self)
    (url self)
    (urlParams self)
    None
    (headers self)
    (body self).

(** [if (x) h = Headers.set(h, key, show(x))], for a property [x] that
    may be undefined. *)
Definition setIfTruthy {A} (x : option A) (truthy : A → bool) (key : str)
  (show : A → str) (h : Headers.Headers) : Headers.Headers :=
  match x with
  | Some a => if truthy a then Headers.set h key (show a) else h
  | None => h
  end.

Definition setBody (self : ClientRequest) (body' : Body.Body) : ClientRequest :=
  let headers' := headers self in
  let headers' :=
    match body' with
    | Body.Empty =>
        Headers.remove (Headers.remove headers' (lit "Content-Type"))
          (lit "Content-length")
    | _ =>
        let contentType := Body.contentType body' in
        let headers' :=
          setIfTruthy contentType Js.truthyStr (lit "content-type") id headers' in
        let contentLength := Body.contentLength body' in
        setIfTruthy contentLength Js.truthyNum (lit "content-length")
          Js.numberToString headers'
    end in
  makeInternal
    (method self)
    (url self)
    (urlParams self)
    (hash self)
    headers'
    body'.

(** The body setters. An optional [contentType] has its default when it
    is undefined. *)
Definition uint8ArrayBody (self : ClientRequest) (body' : list N)
  (contentType : option str) : ClientRequest :=
  setBody self
    (internalBody.uint8Array body'
       (default (lit "application/octet-stream") contentType)).

Definition textBody (self : ClientRequest) (body' : str)
  (contentType : option str) : ClientRequest :=
  setBody self (internalBody.text body' (default (lit "text/plain") contentType)).

Definition jsonBody (self : ClientRequest) (body' : Js.unknown)
  : Effect.Effect ClientRequest Body.BodyError unit :=
  Effect.map (internalBody.json body') (fun b => setBody self b).

Definition unsafeJsonBody (self : ClientRequest) (body' : Js.unknown)
  : Js.Exception + ClientRequest :=
  match internalBody.unsafeJson body' with
  | inl thrown => inl thrown
  | inr b => inr (setBody self b)
  end.

Definition fileBody (self : ClientRequest) (path : str) (contentType : option str)
  : Effect.Effect ClientRequest Body.PlatformError FileSystem.FileSystem :=
  Effect.map (internalBody.file path contentType) (fun b => setBody self b).

Definition fileWebBody (self : ClientRequest) (file : list (list N) * str * Z)
  : ClientRequest :=
  setBody self (internalBody.fileWeb file).

(** [encode] stands for [internalBody.jsonSchema(schema, options)], the
    encoder of the schema collaborator. *)
Definition schemaBody {A R} (encode : A → Effect.Effect Body.Body Body.BodyError R)
  (self : ClientRequest) (body' : A) : Effect.Effect ClientRequest Body.BodyError R :=
  Effect.map (encode body') (fun b => setBody self b).

Definition urlParamsBody (self : ClientRequest) (body' : UrlParams.Input)
  : ClientRequest :=
  setBody self
    (internalBody.text
       (UrlParams.toString (UrlParams.fromInput body'))
       (lit "application/x-www-form-urlencoded")).

Definition formDataBody (self : ClientRequest) (body' : list (str * str))
  : ClientRequest :=
  setBody self (internalBody.formData body').

Definition streamBody (self : ClientRequest) (body' : list (list N))
  (contentType : option str) (contentLength : option Z) : ClientRequest :=
  setBody self
    (internalBody.stream body'
       (default (lit "application/octet-stream") contentType) contentLength).

(** The options of [modify]. A property that is absent (or undefined)
    is [None]. *)
Module Options.

Record t := mk {
  method : option Method;
  url : option UrlInput;
  headers : option Headers.Input;
  urlParams : option UrlParams.Input;
  hash : option str;
  body : option Body.Body;
  accept : option str;
  acceptJson : option bool
}.

Definition none : t := mk None None None None None None None None.

(** An options object as it is written, key by key: the enumeration
    order of its keys is the order of the list. *)
Inductive Entry :=
| method_ (v : Method)
| url_ (v : UrlInput)
| headers_ (v : Headers.Input)
| urlParams_ (v : UrlParams.Input)
| hash_ (v : str)
| body_ (v : Body.Body)
| accept_ (v : str)
| acceptJson_ (v : bool).

Definition key (e : Entry) : string :=
  match e with
  | method_ _ => "method"
  | url_ _ => "url"
  | headers_ _ => "headers"
  | urlParams_ _ => "urlParams"
  | hash_ _ => "hash"
  | body_ _ => "body"
  | accept_ _ => "accept"
  | acceptJson_ _ => "acceptJson"
  end.

Definition assign (o : t) (e : Entry) : t :=
  match e with
  | method_ v =>
      mk (Some v) (url o) (headers o) (urlParams o) (hash o) (body o) (accept o) (acceptJson o)
  | url_ v =>
      mk (method o) (Some v) (headers o) (urlParams o) (hash o) (body o) (accept o) (acceptJson o)
  | headers_ v =>
      mk (method o) (url o) (Some v) (urlParams o) (hash o) (body o) (accept o) (acceptJson o)
  | urlParams_ v =>
      mk (method o) (url o) (headers o) (Some v) (hash o) (body o) (accept o) (acceptJson o)
  | hash_ v =>
      mk (method o) (url o) (headers o) (urlParams o) (Some v) (body o) (accept o) (acceptJson o)
  | body_ v =>
      mk (method o) (url o) (headers o) (urlParams o) (hash o) (Some v) (accept o) (acceptJson o)
  | accept_ v =>
      mk (method o) (url o) (headers o) (urlParams o) (hash o) (body o) (Some v) (acceptJson o)
  | acceptJson_ v =>
      mk (method o) (url o) (headers o) (urlParams o) (hash o) (body o) (accept o) (Some v)
  end.

Definition fromEntries (l : list Entry) : t := foldl assign none l.

(** [Options.NoUrl], the options without [method] and [url] that a
    per-method constructor accepts ([Options.NoBody] has no [body]
    either). *)
Record NoUrl := mkNoUrl {
  headers' : option Headers.Input;
  urlParams' : option UrlParams.Input;
  hash' : option str;
  body' : option Body.Body;
  accept' : option str;
  acceptJson' : option bool
}.

(** The object literal [{ method, url, ...(options ?? undefined) }]. *)
Definition withMethodAndUrl (m : Method) (u : UrlInput) (options : option NoUrl) : t :=
  match options with
  | None => mk (Some m) (Some u) None None None None None None
  | Some o =>
      mk (Some m) (Some u) (headers' o) (urlParams' o) (hash' o) (body' o)
        (accept' o) (acceptJson' o)
  end.

End Options.

(** Truthiness of the option values: a method is a non-empty string
    literal and an object is always truthy; a string is truthy unless it
    is empty; [acceptJson] is a boolean. *)
Definition truthyUrl (u : UrlInput) : bool :=
  match u with
  | UrlString s => Js.truthyStr s
  | UrlObject _ => true
  end.

Definition truthyObject {A} (_ : A) : bool := true.

(** [if (x) result = f(result, x)] *)
Definition ifTruthy {A} (x : option A) (truthy : A → bool)
  (f : ClientRequest → A → ClientRequest) (result : ClientRequest) : ClientRequest :=
  match x with
  | Some a => if truthy a then f result a else result
  | None => result
  end.

Definition modify (self : ClientRequest) (options : Options.t) : ClientRequest :=
  let result := self in
  let result := ifTruthy (Options.method options) truthyObject setMethod result in
  let result := ifTruthy (Options.url options) truthyUrl setUrl result in
  let result := ifTruthy (Options.headers options) truthyObject setHeaders result in
  let result := ifTruthy (Options.urlParams options) truthyObject setUrlParams result in
  let result := ifTruthy (Options.hash options) Js.truthyStr setHash result in
  let result := ifTruthy (Options.body options) truthyObject setBody result in
  let result := ifTruthy (Options.accept options) Js.truthyStr accept result in
  let result :=
    ifTruthy (Options.acceptJson options) id (fun r _ => acceptJson r) result in
  result.

Definition make (method' : Method) (url' : UrlInput) (options : option Options.NoUrl)
  : ClientRequest :=
  modify empty (Options.withMethodAndUrl method' url' options).

Definition get := make GET.
Definition post := make POST.
Definition put := make PUT.
Definition patch := make PATCH.
Definition del := make DELETE.
Definition head := make HEAD.
Definition options := make OPTIONS.

End ClientRequest.

(** ** [packages/vitest/src/index.ts] *)

Module Vitest.

(** What [Effect.exit] gives: the value of the effect or the cause of
    its failure. *)
Inductive Exit (A Cause : Type) :=
| Success (a : A)
| Failure (cause : Cause).
Arguments Success {A Cause} a.
Arguments Failure {A Cause} cause.

(** How the promise of [runTest] settles: it is resolved, or rejected
    with what the returned thunk throws, which is undefined when the
    array of errors has no first element. *)
Inductive Settled (Err : Type) :=
| Resolved
| Rejected (thrown : option Err).
Arguments Resolved {Err}.
Arguments Rejected {Err} thrown.

(** [for (let i = 1; i < errors.length; i++) yield* Effect.logError(errors[i])],
    from index [i], with the errors logged so far in [log]; [steps] bounds
    the number of iterations. *)
Fixpoint logErrors {Err} (errors : list Err) (i steps : nat) (log : list Err)
  : list Err :=
  match steps with
  | O => log
  | S steps' =>
      if (i <? length errors)%nat then
        match errors !! i with
        | Some e => logErrors errors (S i) steps' (log ++ [e])
        | None => log
        end
      else log
  end.

(** [runTest], from the exit of the effect: the errors it logs and how
    its promise settles. [prettyErrors] is [Cause.prettyErrors]. *)
Definition runTest {A Cause Err} (prettyErrors : Cause → list Err)
  (exit : Exit A Cause) : list Err * Settled Err :=
  match exit with
  | Success _ => ([], Resolved)
  | Failure cause =>
      let errors := prettyErrors cause in
      (logErrors errors 1 (length errors) [], Rejected (errors !! 0%nat))
  end.

End Vitest.

Import ClientRequest.

(** ** Definitions used to state the properties *)

(** The field setters, each with its arguments. *)
Inductive Setter :=
| SetMethod (m : Method)
| SetUrl (u : UrlInput)
| SetHeader (key value : str)
| SetHeaders (input : Headers.Input)
| SetUrlParam (key value : str)
| SetUrlParams (input : UrlParams.Input)
| AppendUrlParam (key value : str)
| AppendUrlParams (input : UrlParams.Input)
| SetHash (h : str)
| RemoveHash
| SetBody (b : Body.Body).

Definition runSetter (s : Setter) (d : ClientRequest) : ClientRequest :=
  match s with
  | SetMethod m => setMethod d m
  | SetUrl u => setUrl d u
  | SetHeader k v => setHeader d k v
  | SetHeaders i => setHeaders d i
  | SetUrlParam k v => setUrlParam d k v
  | SetUrlParams i => setUrlParams d i
  | AppendUrlParam k v => appendUrlParam d k v
  | AppendUrlParams i => appendUrlParams d i
  | SetHash h => setHash d h
  | RemoveHash => removeHash d
  | SetBody b => setBody d b
  end.

(** The fields of a request, and what it is for two requests to have the
    same value in a field. *)
Inductive Field := FMethod | FUrl | FUrlParams | FHash | FHeaders | FBody.

Definition sameField (f : Field) (d d' : ClientRequest) : Prop :=
  match f with
  | FMethod => method d = method d'
  | FUrl => url d = url d'
  | FUrlParams => urlParams d = urlParams d'
  | FHash => hash d = hash d'
  | FHeaders => headers d = headers d'
  | FBody => body d = body d'
  end.

(** The fields that a setter gives a value of its own. *)
Definition writes (s : Setter) : list Field :=
  match s with
  | SetMethod _ => [FMethod]
  | SetUrl (UrlString _) => [FUrl]
  | SetUrl (UrlObject _) => [FUrl; FUrlParams; FHash]
  | SetHeader _ _ | SetHeaders _ => [FHeaders]
  | SetUrlParam _ _ | SetUrlParams _ | AppendUrlParam _ _ | AppendUrlParams _ =>
      [FUrlParams]
  | SetHash _ | RemoveHash => [FHash]
  | SetBody _ => [FHeaders; FBody]
  end.

(** Request objects in a store, by address. [makeInternal] creates its
    object with [Object.create] and assigns the six fields of that new
    object; no function of the builder assigns a field of an object it
    was given. A builder function [f] called on the object at [self]
    therefore reads that object and adds one object to the store. *)
Definition Store := list ClientRequest.

Definition callOn (f : ClientRequest → ClientRequest) (self : nat) (σ : Store)
  : option (nat * Store) :=
  d ← σ !! self; Some (length σ, σ ++ [f d]).

(** The steps of [modify] as a list, after the specification: an option
    that is present with a truthy value "triggers the corresponding
    single-field setter", and the steps are "applied in a fixed order
    (method, url, headers, urlParams, hash, body, accept, acceptJson)". *)
Definition trigger {A} (x : option A) (truthy : A → bool)
  (setter : ClientRequest → A → ClientRequest) (d : ClientRequest) : ClientRequest :=
  match x with
  | Some v => if truthy v then setter d v else d
  | None => d
  end.

Definition fixedOrder (o : Options.t) : list (ClientRequest → ClientRequest) :=
  [ trigger (Options.method o) (fun _ => true) setMethod;
    trigger (Options.url o) truthyUrl setUrl;
    trigger (Options.headers o) (fun _ => true) setHeaders;
    trigger (Options.urlParams o) (fun _ => true) setUrlParams;
    trigger (Options.hash o) Js.truthyStr setHash;
    trigger (Options.body o) (fun _ => true) setBody;
    trigger (Options.accept o) Js.truthyStr accept;
    trigger (Options.acceptJson o) (fun b => b) (fun d _ => acceptJson d) ].

Definition applyInOrder (d : ClientRequest) (o : Options.t) : ClientRequest :=
  foldl (fun r step => step r) d (fixedOrder o).

(** Reserialisation in the words of the specification: "base url + [?] +
    encoded params + [#] + fragment", a part being left out when the
    request has no parameters or no fragment. *)
Definition reserialize (d : ClientRequest) : str :=
  url d
  ++ (match urlParams d with
      | [] => []
      | _ => Js.question :: UrlParams.toString (urlParams d)
      end)
  ++ (match hash d with
      | Some f => Js.numberSign :: f
      | None => []
      end).

(** A URL object is well formed when its parts hold no separator that
    would end them. Parsing then undoes serialisation. *)
Definition wellFormed (u : Js.URL) : Prop :=
  (Js.question ∉ Js.base u) ∧ (Js.numberSign ∉ Js.base u)
  ∧ (∀ q, Js.query u = Some q → Js.numberSign ∉ q).

(** The header names that [setBody] maintains. *)
Definition contentTypeKey : str := lit "content-type".
Definition contentLengthKey : str := lit "content-length".

(** The value of a header that [setBody] derives from a property [x] of
    the body: the property shown as a string when it is defined and
    truthy, and the value the header had before otherwise. *)
Definition metadataHeader {A} (x : option A) (truthy : A → bool) (show : A → str)
  (before : option str) : option str :=
  match x with
  | Some a => if truthy a then Some (show a) else before
  | None => before
  end.

(** The content-type header after a body setter with an optional
    [contentType] argument: the default of the setter when the argument is
    undefined, the argument when it is a non-empty string, and the header
    as it was when the argument is the empty string. *)
Definition contentTypeAfter (dflt : str) (contentType : option str)
  (before : option str) : option str :=
  match contentType with
  | None => Some dflt
  | Some [] => before
  | Some c => Some c
  end.

(** Two setters write different fields. *)
Definition differentFields (s1 s2 : Setter) : Prop :=
  ∀ f, f ∈ writes s1 → f ∈ writes s2 → False.

(** The values that [JSON.stringify] refuses: those that hold a BigInt,
    at any depth. *)
Fixpoint hasBigInt (v : Js.unknown) : bool :=
  match v with
  | Js.VBigInt _ => true
  | Js.VArray items => existsb hasBigInt items
  | Js.VNull | Js.VBool _ => false
  end.

(** The operations that the builder exports, each with its arguments
    other than the request it is applied to. An operation that is run by
    the effect runtime carries the services it is run with; [OpSchemaBody]
    carries the encoder of its schema. *)
Inductive Operation :=
| OpMake (m : Method) (u : UrlInput) (o : option Options.NoUrl)
| OpModify (o : Options.t)
| OpSetHeader (key value : str)
| OpSetHeaders (input : Headers.Input)
| OpBasicAuth (username password : str)
| OpBearerToken (token : str)
| OpAccept (mediaType : str)
| OpAcceptJson
| OpSetMethod (m : Method)
| OpSetUrl (u : UrlInput)
| OpAppendUrl (path : str)
| OpPrependUrl (path : str)
| OpUpdateUrl (f : str → str)
| OpAppendUrlParam (key value : str)
| OpAppendUrlParams (input : UrlParams.Input)
| OpSetUrlParam (key value : str)
| OpSetUrlParams (input : UrlParams.Input)
| OpSetHash (h : str)
| OpRemoveHash
| OpSetBody (b : Body.Body)
| OpUint8ArrayBody (bytes : list N) (contentType : option str)
| OpTextBody (text : str) (contentType : option str)
| OpJsonBody (v : Js.unknown)
| OpUnsafeJsonBody (v : Js.unknown)
| OpFileBody (path : str) (contentType : option str) (fs : FileSystem.FileSystem)
| OpFileWebBody (file : list (list N) * str * Z)
| OpSchemaBody {A R : Type}
    (encode : A → Effect.Effect Body.Body Body.BodyError R) (a : A) (env : R)
| OpUrlParamsBody (input : UrlParams.Input)
| OpFormDataBody (fields : list (str * str))
| OpStreamBody (chunks : list (list N)) (contentType : option str)
    (contentLength : option Z).

(** The kinds of typed failure, and the three ways in which a call of an
    operation ends: it returns a descriptor, it fails with a typed
    result, or it throws. *)
Inductive Failure :=
| BodyEncoding (e : Body.BodyError)
| PlatformIO (e : Body.PlatformError).

Inductive Outcome :=
| Returned (r : ClientRequest)
| Failed (e : Failure)
| Threw (x : Js.Exception).

Definition ofThrowing (c : Js.Exception + ClientRequest) : Outcome :=
  match c with
  | inl x => Threw x
  | inr r => Returned r
  end.

Definition ofEffect {E} (kind : E → Failure) (c : E + ClientRequest) : Outcome :=
  match c with
  | inl e => Failed (kind e)
  | inr r => Returned r
  end.

Definition perform (op : Operation) (d : ClientRequest) : Outcome :=
  match op with
  | OpMake m u o => Returned (make m u o)
  | OpModify o => Returned (modify d o)
  | OpSetHeader k v => Returned (setHeader d k v)
  | OpSetHeaders i => Returned (setHeaders d i)
  | OpBasicAuth u p => ofThrowing (basicAuth d u p)
  | OpBearerToken t => Returned (bearerToken d t)
  | OpAccept m => Returned (accept d m)
  | OpAcceptJson => Returned (acceptJson d)
  | OpSetMethod m => Returned (setMethod d m)
  | OpSetUrl u => Returned (setUrl d u)
  | OpAppendUrl p => Returned (appendUrl d p)
  | OpPrependUrl p => Returned (prependUrl d p)
  | OpUpdateUrl f => Returned (updateUrl d f)
  | OpAppendUrlParam k v => Returned (appendUrlParam d k v)
  | OpAppendUrlParams i => Returned (appendUrlParams d i)
  | OpSetUrlParam k v => Returned (setUrlParam d k v)
  | OpSetUrlParams i => Returned (setUrlParams d i)
  | OpSetHash h => Returned (setHash d h)
  | OpRemoveHash => Returned (removeHash d)
  | OpSetBody b => Returned (setBody d b)
  | OpUint8ArrayBody bytes ct => Returned (uint8ArrayBody d bytes ct)
  | OpTextBody t ct => Returned (textBody d t ct)
  | OpJsonBody v => ofEffect BodyEncoding (jsonBody d v ())
  | OpUnsafeJsonBody v => ofThrowing (unsafeJsonBody d v)
  | OpFileBody path ct fs => ofEffect PlatformIO (fileBody d path ct fs)
  | OpFileWebBody file => Returned (fileWebBody d file)
  | OpSchemaBody encode a env => ofEffect BodyEncoding (schemaBody encode d a env)
  | OpUrlParamsBody i => Returned (urlParamsBody d i)
  | OpFormDataBody f => Returned (formDataBody d f)
  | OpStreamBody chunks ct len => Returned (streamBody d chunks ct len)
  end.

(** The keys that an options object of a per-method constructor has of
    its own, with their values, in the order in which the type lists
    them; [None] is the absent [options] argument. *)
Definition ownEntries (o : option Options.NoUrl) : list Options.Entry :=
  match o with
  | None => []
  | Some o =>
      option_list (Options.headers_ <$> Options.headers' o)
      ++ option_list (Options.urlParams_ <$> Options.urlParams' o)
      ++ option_list (Options.hash_ <$> Options.hash' o)
      ++ option_list (Options.body_ <$> Options.body' o)
      ++ option_list (Options.accept_ <$> Options.accept' o)
      ++ option_list (Options.acceptJson_ <$> Options.acceptJson' o)
  end.

(** The object [{method: M, url: u, ...o}] in the words of the
    specification, written key by key. *)
Definition methodUrlAndOptions (M : Method) (u : UrlInput)
  (o : option Options.NoUrl) : Options.t :=
  Options.fromEntries (Options.method_ M :: Options.url_ u :: ownEntries o).

(** The steps that the options of a constructor trigger, after the
    method and the url. *)
Definition optionSteps (o : option Options.NoUrl)
  : list (ClientRequest → ClientRequest) :=
  [ trigger (o ≫= Options.headers') (fun _ => true) setHeaders;
    trigger (o ≫= Options.urlParams') (fun _ => true) setUrlParams;
    trigger (o ≫= Options.hash') Js.truthyStr setHash;
    trigger (o ≫= Options.body') (fun _ => true) setBody;
    trigger (o ≫= Options.accept') Js.truthyStr accept;
    trigger (o ≫= Options.acceptJson') (fun b => b) (fun d _ => acceptJson d) ].

(** ** Properties *)

(** *** Header maps *)

Lemma lookup_set (h : Headers.Headers) (key value k : str) :
  Headers.set h key value !! k
  = if decide (Js.toLowerCase key = k) then Some value else h !! k.
Proof. unfold Headers.set. apply lookup_insert. Qed.

Lemma lookup_remove (h : Headers.Headers) (key k : str) :
  Headers.remove h key !! k
  = if decide (Js.toLowerCase key = k) then None else h !! k.
Proof. unfold Headers.remove. apply lookup_delete. Qed.

Lemma lookup_setIfTruthy {A} (x : option A) (truthy : A → bool) (key : str) (show : A → str)
    (h : Headers.Headers) (k : str) :
  setIfTruthy x truthy key show h !! k
  = match x with
    | Some a =>
        if truthy a && bool_decide (Js.toLowerCase key = k)
        then Some (show a) else h !! k
    | None => h !! k
    end.
Proof.
  unfold setIfTruthy. destruct x as [a|]; [|done].
  destruct (truthy a); simpl; [|done].
  rewrite lookup_set. by destruct (decide _) as [->|Hne];
    [rewrite bool_decide_eq_true_2 | rewrite bool_decide_eq_false_2].
Qed.

(** *** [setBody] *)

Lemma setBody_frame (d : ClientRequest) (b : Body.Body) :
  method (setBody d b) = method d ∧ url (setBody d b) = url d
  ∧ urlParams (setBody d b) = urlParams d ∧ hash (setBody d b) = hash d
  ∧ body (setBody d b) = b.
Proof. by destruct b. Qed.

Lemma setBody_lookup_empty (d : ClientRequest) (k : str) :
  headers (setBody d Body.Empty) !! k
  = if bool_decide (k = contentTypeKey) || bool_decide (k = contentLengthKey)
    then None else headers d !! k.
Proof.
  cbn [setBody headers]. rewrite !lookup_remove.
  change (Js.toLowerCase (lit "Content-length")) with contentLengthKey.
  change (Js.toLowerCase (lit "Content-Type")) with contentTypeKey.
  repeat case_decide; repeat case_bool_decide; simpl; congruence.
Qed.

Lemma setBody_lookup_nonempty (d : ClientRequest) (b : Body.Body) (k : str) :
  b ≠ Body.Empty →
  headers (setBody d b) !! k
  = if bool_decide (k = contentLengthKey)
    then metadataHeader (Body.contentLength b) Js.truthyNum Js.numberToString
           (headers d !! k)
    else if bool_decide (k = contentTypeKey)
    then metadataHeader (Body.contentType b) Js.truthyStr id (headers d !! k)
    else headers d !! k.
Proof.
  intros Hb.
  assert (headers (setBody d b)
          = setIfTruthy (Body.contentLength b) Js.truthyNum (lit "content-length")
              Js.numberToString
              (setIfTruthy (Body.contentType b) Js.truthyStr (lit "content-type") id
                 (headers d))) as -> by (by destruct b).
  rewrite !lookup_setIfTruthy.
  change (Js.toLowerCase (lit "content-length")) with contentLengthKey.
  change (Js.toLowerCase (lit "content-type")) with contentTypeKey.
  unfold metadataHeader.
  destruct (Body.contentLength b) as [n|], (Body.contentType b) as [t|];
    repeat case_bool_decide; subst; try discriminate;
    rewrite ?andb_true_r, ?andb_false_r;
    repeat match goal with |- context [if ?c then _ else _] => destruct c end;
    done.
Qed.

(** C1, as amended. For every descriptor [d], body [b] and header name
    [k]: after [setBody d b] with [b] the Empty variant, the headers have
    neither a content-type nor a content-length entry and every other
    header is as in [d]; with [b] non-Empty, the content-type header is
    [b]'s content type when [b] has a non-empty one, the content-length
    header is [b]'s content length in decimal when [b] has a non-zero one,
    and a header for which [b] has no such value, like every other
    header, is left as it was in [d] (it is not cleared). The body of the
    result is [b] and the four other fields are those of [d]. After
    [setBody d (text "hi" "text/plain")] the content-type header is
    "text/plain" and the content-length header is "2". *)
Theorem setBody_headers (d : ClientRequest) (b : Body.Body) (k : str) :
  headers (setBody d b) !! k
  = match b with
    | Body.Empty =>
        if bool_decide (k = contentTypeKey) || bool_decide (k = contentLengthKey)
        then None else headers d !! k
    | _ =>
        if bool_decide (k = contentLengthKey)
        then metadataHeader (Body.contentLength b) Js.truthyNum Js.numberToString
               (headers d !! k)
        else if bool_decide (k = contentTypeKey)
        then metadataHeader (Body.contentType b) Js.truthyStr id (headers d !! k)
        else headers d !! k
    end
  ∧ body (setBody d b) = b
  ∧ method (setBody d b) = method d ∧ url (setBody d b) = url d
  ∧ urlParams (setBody d b) = urlParams d ∧ hash (setBody d b) = hash d
  ∧ headers (setBody d (internalBody.text (lit "hi") (lit "text/plain")))
      !! contentTypeKey = Some (lit "text/plain")
  ∧ headers (setBody d (internalBody.text (lit "hi") (lit "text/plain")))
      !! contentLengthKey = Some (lit "2")
  ∧ headers (setBody d internalBody.empty) !! contentTypeKey = None
  ∧ headers (setBody d internalBody.empty) !! contentLengthKey = None.
Proof.
  split.
  { destruct b; [apply setBody_lookup_empty | ..];
      by rewrite setBody_lookup_nonempty. }
  destruct (setBody_frame d b) as (? & ? & ? & ? & ?).
  repeat split; try done.
  - by rewrite setBody_lookup_nonempty.
  - by rewrite setBody_lookup_nonempty.
  - by rewrite setBody_lookup_empty.
  - by rewrite setBody_lookup_empty.
Qed.

(** C1, counterexample. A text body sets content-length "2"; a streamed
    body without a content length set afterwards leaves that header in
    place. *)
Lemma setBody_stale_content_length :
  let d := setBody empty (internalBody.text (lit "hi") (lit "text/plain")) in
  let b := internalBody.stream [] (lit "application/octet-stream") None in
  ¬ (Body.contentLength b = None →
     headers (setBody d b) !! contentLengthKey = None).
Proof.
  intros d b H. specialize (H eq_refl). vm_compute in H. discriminate H.
Qed.

(** *** [setMethod] *)

(** C9. Setting the method twice to the same value, "POST" in particular,
    gives the request that setting it once gives. *)
Theorem setMethod_idempotent (d : ClientRequest) (m : Method) :
  setMethod (setMethod d m) m = setMethod d m
  ∧ setMethod (setMethod d POST) POST = setMethod d POST.
Proof. split; reflexivity. Qed.

(** *** [appendUrl] and [prependUrl] *)

Lemma startsWith_spec (c : N) (s : str) :
  Js.startsWith c s = true ↔ ∃ s', s = c :: s'.
Proof.
  destruct s as [|x s]; simpl.
  - split; [done | by intros [? ?]].
  - rewrite bool_decide_eq_true. split.
    + intros ->. by exists s.
    + by intros [s' [= ->]].
Qed.

Lemma endsWith_spec (c : N) (s : str) :
  Js.endsWith c s = true ↔ ∃ s', s = s' ++ [c].
Proof.
  unfold Js.endsWith. destruct (last s) as [x|] eqn:Hl.
  - apply last_Some in Hl as [s' ->]. rewrite bool_decide_eq_true. split.
    + intros ->. by exists s'.
    + intros [s'' Heq]. by apply app_inj_tail in Heq as [_ ->].
  - apply last_None in Hl as ->. split; [done|].
    intros [s' Heq]. by destruct s'.
Qed.

Lemma join_cases (u p : str) :
  Js.endsWith Js.slash u && Js.startsWith Js.slash p = true
  ↔ ∃ u' p', u = u' ++ [Js.slash] ∧ p = Js.slash :: p'.
Proof.
  rewrite andb_true_iff, endsWith_spec, startsWith_spec. split.
  - intros [[u' Hu] [p' Hp]]. eauto.
  - intros (u' & p' & Hu & Hp). eauto.
Qed.

(** C6. [appendUrl d p] has for url the url of [d] followed by [p], with
    one of the two slashes left out exactly when the url of [d] ends with
    a slash and [p] starts with one, and nothing inserted otherwise;
    [prependUrl d p] is the same with [p] in front. "http://h/a/" and "/b"
    give "http://h/a/b"; "http://h/a" and "b" give "http://h/ab". The
    other five fields are those of [d]. *)
Theorem appendUrl_join (d : ClientRequest) (p : str) :
  ((∃ u' p', url d = u' ++ [Js.slash] ∧ p = Js.slash :: p'
             ∧ url (appendUrl d p) = u' ++ Js.slash :: p')
   ∨ (¬ (∃ u' p', url d = u' ++ [Js.slash] ∧ p = Js.slash :: p')
      ∧ url (appendUrl d p) = url d ++ p))
  ∧ ((∃ p' u', p = p' ++ [Js.slash] ∧ url d = Js.slash :: u'
               ∧ url (prependUrl d p) = p' ++ Js.slash :: u')
     ∨ (¬ (∃ p' u', p = p' ++ [Js.slash] ∧ url d = Js.slash :: u')
        ∧ url (prependUrl d p) = p ++ url d))
  ∧ url (appendUrl (setUrl d (UrlString (lit "http://h/a/"))) (lit "/b"))
    = lit "http://h/a/b"
  ∧ url (appendUrl (setUrl d (UrlString (lit "http://h/a"))) (lit "b"))
    = lit "http://h/ab"
  ∧ (∀ f, sameField f d (appendUrl d p) ∨ f = FUrl)
  ∧ (∀ f, sameField f d (prependUrl d p) ∨ f = FUrl).
Proof.
  split; [|split].
  - cbn [appendUrl url].
    destruct (Js.endsWith _ _ && Js.startsWith _ _) eqn:Hj.
    + left. apply join_cases in Hj as (u' & p' & Hu & ->).
      exists u', p'. rewrite Hu at 2. by rewrite <- app_assoc.
    + right. split; [|done]. intros Hex.
      apply join_cases in Hex. congruence.
  - cbn [prependUrl url].
    destruct (Js.endsWith _ _ && Js.startsWith _ _) eqn:Hj.
    + left. apply join_cases in Hj as (p' & u' & -> & Hu).
      exists p', u'. rewrite Hu at 2. by rewrite <- app_assoc.
    + right. split; [|done]. intros Hex.
      apply join_cases in Hex. congruence.
  - repeat split; try (intros []; simpl; auto).
Qed.

(** *** [empty] and the per-method constructors *)

Lemma ifTruthy_preserves {A B} (π : ClientRequest → B) (x : option A)
    (truthy : A → bool) (f : ClientRequest → A → ClientRequest) (r : ClientRequest) :
  (∀ r a, π (f r a) = π r) → π (ifTruthy x truthy f r) = π r.
Proof.
  intros Hf. unfold ifTruthy. destruct x as [a|]; [destruct (truthy a)|]; auto.
Qed.

Lemma setBody_preserves (r : ClientRequest) (b : Body.Body) :
  method (setBody r b) = method r ∧ url (setBody r b) = url r
  ∧ urlParams (setBody r b) = urlParams r ∧ hash (setBody r b) = hash r.
Proof. by destruct b. Qed.

Lemma setUrl_preserves (r : ClientRequest) (u : UrlInput) :
  method (setUrl r u) = method r ∧ headers (setUrl r u) = headers r
  ∧ body (setUrl r u) = body r.
Proof. by destruct u. Qed.

Lemma body_setBody (r : ClientRequest) (b : Body.Body) : body (setBody r b) = b.
Proof. by destruct b. Qed.

(** Goals that a step of [modify] leaves a field alone. *)
Ltac step_preserves :=
  solve [ done
        | intros; apply setBody_preserves
        | intros; apply setUrl_preserves ].

Lemma modify_method (d : ClientRequest) (o : Options.t) :
  method (modify d o) = default (method d) (Options.method o).
Proof.
  unfold modify. cbv zeta.
  do 7 (rewrite (ifTruthy_preserves method); [|step_preserves]).
  by destruct (Options.method o).
Qed.

Lemma modify_url (d : ClientRequest) (o : Options.t) :
  url (modify d o) = url (ifTruthy (Options.url o) truthyUrl setUrl d).
Proof.
  unfold modify. cbv zeta.
  do 6 (rewrite (ifTruthy_preserves url); [|step_preserves]).
  unfold ifTruthy at 1 3.
  destruct (Options.url o) as [[s|u]|]; simpl;
    repeat match goal with |- context [if ?c then _ else _] => destruct c end;
    simpl; first [done | by apply (ifTruthy_preserves url)].
Qed.

Lemma modify_body (d : ClientRequest) (o : Options.t) :
  body (modify d o) = default (body d) (Options.body o).
Proof.
  unfold modify. cbv zeta.
  do 2 (rewrite (ifTruthy_preserves body); [|step_preserves]).
  unfold ifTruthy at 1, truthyObject.
  destruct (Options.body o) as [b|]; cbn [default].
  - apply body_setBody.
  - do 5 (rewrite (ifTruthy_preserves body); [|step_preserves]). done.
Qed.

Lemma make_plain (M : Method) (u : UrlInput) :
  make M u None = setUrl (setMethod empty M) u.
Proof.
  unfold make, modify. simpl.
  destruct u as [[|c s]|u]; reflexivity.
Qed.

Lemma request_fields (d : ClientRequest) (m : Method) (u : str)
    (ps : UrlParams.UrlParams) (h : option str) (hs : Headers.Headers)
    (b : Body.Body) :
  method d = m → url d = u → urlParams d = ps → hash d = h → headers d = hs →
  body d = b → d = makeInternal m u ps h hs b.
Proof. destruct d; simpl; by intros -> -> -> -> -> ->. Qed.

Lemma make_literal (M : Method) (u : UrlInput) (o : option Options.NoUrl) :
  Options.withMethodAndUrl M u o = methodUrlAndOptions M u o.
Proof.
  unfold methodUrlAndOptions.
  destruct o as [[[hs|] [ps|] [h|] [b|] [a|] [j|]]|]; reflexivity.
Qed.

Lemma make_steps (M : Method) (u : UrlInput) (o : option Options.NoUrl) :
  make M u o
  = foldl (fun r step => step r)
      (setUrl (makeInternal M [] [] None ∅ Body.Empty) u) (optionSteps o).
Proof.
  unfold make, modify. destruct o as [o|]; destruct u as [[|c s]|U]; reflexivity.
Qed.

Lemma trigger_preserves {A B} (π : ClientRequest → B) (x : option A)
    (truthy : A → bool) (f : ClientRequest → A → ClientRequest) (r : ClientRequest) :
  (∀ r a, π (f r a) = π r) → π (trigger x truthy f r) = π r.
Proof.
  intros Hf. unfold trigger. destruct x as [a|]; [destruct (truthy a)|]; auto.
Qed.

Lemma headers_accept_step {A} (x : option A) (truthy : A → bool)
    (f : ClientRequest → A → ClientRequest) (r : ClientRequest) :
  from_option truthy false x = false → trigger x truthy f r = r.
Proof. unfold trigger. destruct x as [a|]; simpl; [by intros ->|done]. Qed.

Lemma trigger_headers {A} (x : option A) (truthy : A → bool)
    (f : ClientRequest → A → ClientRequest) (r r' : ClientRequest) :
  (∀ r r' a, headers r = headers r' → headers (f r a) = headers (f r' a)) →
  headers r = headers r' →
  headers (trigger x truthy f r) = headers (trigger x truthy f r').
Proof.
  intros Hf Hr. unfold trigger. destruct x as [a|]; [destruct (truthy a)|]; auto.
Qed.

Ltac headers_congruence :=
  let H := fresh in
  intros ? ? ? H;
  first [ solve [cbn [acceptJson accept setHeader setHeaders headers]; by rewrite H]
        | match goal with b : Body.Body |- _ => destruct b end;
          cbn [setBody headers]; by rewrite H ].

Lemma make_fields (M : Method) (u : UrlInput) (o : option Options.NoUrl) :
  url (make M u o) = url (setUrl empty u)
  ∧ urlParams (make M u o)
    = from_option (UrlParams.setAll (urlParams (setUrl empty u)))
        (urlParams (setUrl empty u)) (o ≫= Options.urlParams')
  ∧ hash (make M u o)
    = match o ≫= Options.hash' with
      | Some (c :: h) => Some (c :: h)
      | _ => hash (setUrl empty u)
      end
  ∧ headers (make M u o)
    = headers
        (trigger (o ≫= Options.acceptJson') (fun b => b) (fun d _ => acceptJson d)
           (trigger (o ≫= Options.accept') Js.truthyStr accept
              (trigger (o ≫= Options.body') (fun _ => true) setBody
                 (trigger (o ≫= Options.headers') (fun _ => true) setHeaders
                    empty)))).
Proof.
  pose proof (make_steps M u o) as Hsteps. cbn [optionSteps foldl] in Hsteps.
  rewrite Hsteps. clear Hsteps. split; [|split; [|split]].
  - do 6 (rewrite (trigger_preserves url); [|step_preserves]). by destruct u.
  - do 4 (rewrite (trigger_preserves urlParams); [|step_preserves]).
    unfold trigger at 1.
    destruct (o ≫= Options.urlParams') as [i|]; cbn [from_option setUrlParams urlParams];
      (rewrite (trigger_preserves urlParams); [|step_preserves]); by destruct u.
  - do 3 (rewrite (trigger_preserves hash); [|step_preserves]).
    unfold trigger at 1.
    destruct (o ≫= Options.hash') as [[|c h]|]; cbn [Js.truthyStr setHash hash];
      [| done |];
      (do 2 (rewrite (trigger_preserves hash); [|step_preserves])); by destruct u.
  - do 3 (apply trigger_headers; [headers_congruence|]).
    do 2 (rewrite (trigger_preserves headers); [|step_preserves]).
    apply trigger_headers; [headers_congruence | by destruct u].
Qed.

(** C10. [empty] is the request with method "GET", url "", no query
    parameters, no hash, no headers and the Empty body. For every method
    [M], url [u] and options [o], [make M u o] is [modify] applied to
    [empty] and the object [{method: M, url: u, ...o}], read through the
    source's record as well as key by key, and [get], [post], [put],
    [patch], [del], [head] and [options] are [make] at their method. The
    options are passed on: the result is [empty] with method [M] and url
    [u] to which the steps of [o] are applied in the order headers,
    urlParams, hash, body, accept, acceptJson. Its method is [M]; its url
    is that of [u]; its query parameters are those of [u] with the
    urlParams option set over them; its hash is the non-empty hash option
    and otherwise that of [u]; its headers are what the headers, body,
    accept and acceptJson options write on no headers; its body is the
    body option. A field that method, url and options do not set keeps
    the empty default: with a string url there are no query parameters
    without a urlParams option and no hash without a truthy hash option;
    there are no headers without a headers or body option and a truthy
    accept or acceptJson; the body is Empty without a body option; and
    without options and with a string url the request is [empty] with its
    method and url replaced. *)
Theorem make_from_empty (M : Method) (u : UrlInput) (o : option Options.NoUrl) :
  empty = makeInternal GET [] [] None ∅ Body.Empty
  ∧ make M u o = modify empty (Options.withMethodAndUrl M u o)
  ∧ (get = make GET ∧ post = make POST ∧ put = make PUT ∧ patch = make PATCH
     ∧ del = make DELETE ∧ head = make HEAD ∧ options = make OPTIONS)
  ∧ method (make M u o) = M
  ∧ body (make M u o) = default Body.Empty (o ≫= Options.body')
  ∧ make M u None = setUrl (makeInternal M [] [] None ∅ Body.Empty) u
  ∧ (∀ s, make M (UrlString s) None = makeInternal M s [] None ∅ Body.Empty)
  ∧ make M u o = modify empty (methodUrlAndOptions M u o)
  ∧ make M u o
    = foldl (fun r step => step r)
        (setUrl (makeInternal M [] [] None ∅ Body.Empty) u) (optionSteps o)
  ∧ url (make M u o) = url (setUrl empty u)
  ∧ urlParams (make M u o)
    = from_option (UrlParams.setAll (urlParams (setUrl empty u)))
        (urlParams (setUrl empty u)) (o ≫= Options.urlParams')
  ∧ hash (make M u o)
    = match o ≫= Options.hash' with
      | Some (c :: h) => Some (c :: h)
      | _ => hash (setUrl empty u)
      end
  ∧ headers (make M u o)
    = headers
        (trigger (o ≫= Options.acceptJson') (fun b => b) (fun d _ => acceptJson d)
           (trigger (o ≫= Options.accept') Js.truthyStr accept
              (trigger (o ≫= Options.body') (fun _ => true) setBody
                 (trigger (o ≫= Options.headers') (fun _ => true) setHeaders
                    empty))))
  ∧ (∀ s, url (make M (UrlString s) o) = s)
  ∧ (∀ s, o ≫= Options.urlParams' = None → urlParams (make M (UrlString s) o) = [])
  ∧ (∀ s, from_option Js.truthyStr false (o ≫= Options.hash') = false →
          hash (make M (UrlString s) o) = None)
  ∧ (o ≫= Options.headers' = None → o ≫= Options.body' = None →
     from_option Js.truthyStr false (o ≫= Options.accept') = false →
     from_option id false (o ≫= Options.acceptJson') = false →
     headers (make M u o) = ∅).
Proof.
  destruct (make_fields M u o) as (Hurl & Hparams & Hhash & Hheaders).
  repeat split; try reflexivity; try done.
  - unfold make. rewrite modify_method. by destruct o.
  - unfold make. rewrite modify_body. by destruct o.
  - apply make_plain.
  - intros s. by rewrite make_plain.
  - unfold make. by rewrite make_literal.
  - apply make_steps.
  - intros s. by destruct (make_fields M (UrlString s) o) as (-> & _).
  - intros s Hnone. destruct (make_fields M (UrlString s) o) as (_ & -> & _).
    by rewrite Hnone.
  - intros s Hfalsy. destruct (make_fields M (UrlString s) o) as (_ & _ & -> & _).
    by destruct (o ≫= Options.hash') as [[|c h]|].
  - intros Hh Hb Ha Hj. rewrite Hheaders, Hh, Hb.
    by rewrite !headers_accept_step.
Qed.

Lemma make_from_empty_witness :
  let o := Some (Options.mkNoUrl None None (Some []) None (Some []) (Some false)) in
  o ≫= Options.headers' = None ∧ o ≫= Options.body' = None
  ∧ o ≫= Options.urlParams' = None
  ∧ from_option Js.truthyStr false (o ≫= Options.hash') = false
  ∧ from_option Js.truthyStr false (o ≫= Options.accept') = false
  ∧ from_option id false (o ≫= Options.acceptJson') = false
  ∧ make PUT (UrlString (lit "/x")) o
    = makeInternal PUT (lit "/x") [] None ∅ Body.Empty.
Proof.
  intros o. do 6 (split; [reflexivity|]).
  destruct (make_from_empty PUT (UrlString (lit "/x")) o)
    as (_ & _ & _ & Hm & Hb & _ & _ & _ & _ & _ & _ & _ & _ & Hu & Hp & Hh & Hhs).
  apply request_fields; [exact Hm | exact (Hu _) | exact (Hp _ eq_refl)
    | exact (Hh _ eq_refl) | exact (Hhs eq_refl eq_refl eq_refl eq_refl) | exact Hb].
Defined.

(** *** URL objects *)

Lemma splitAt_fst_not_in (c : N) (s : str) : c ∉ (Js.splitAt c s).1.
Proof.
  induction s as [|x s IH]; simpl; [apply not_elem_of_nil|].
  case_bool_decide as Hx; simpl; [apply not_elem_of_nil|].
  destruct (Js.splitAt c s) as [a b]; simpl in *.
  rewrite not_elem_of_cons. split; [congruence | done].
Qed.

Lemma splitAt_fst_subseteq (c : N) (s : str) : (Js.splitAt c s).1 ⊆ s.
Proof.
  induction s as [|x s IH]; simpl; [done|].
  case_bool_decide; simpl; [apply list_subseteq_nil|].
  destruct (Js.splitAt c s) as [a b]; simpl in *.
  intros y. rewrite !elem_of_cons. intros [->|Hy]; [by left | right; by apply IH].
Qed.

Lemma newURL_fields (s : str) :
  Js.base (Js.newURL s)
  = (Js.splitAt Js.question (Js.splitAt Js.numberSign s).1).1
  ∧ Js.query (Js.newURL s)
    = (Js.splitAt Js.question (Js.splitAt Js.numberSign s).1).2
  ∧ Js.fragment (Js.newURL s) = (Js.splitAt Js.numberSign s).2.
Proof.
  unfold Js.newURL. destruct (Js.splitAt Js.numberSign s) as [s1 f]; simpl.
  by destruct (Js.splitAt Js.question s1) as [b q].
Qed.

Lemma newURL_base_clean (s : str) :
  (Js.question ∉ Js.base (Js.newURL s)) ∧ (Js.numberSign ∉ Js.base (Js.newURL s)).
Proof.
  destruct (newURL_fields s) as (-> & _ & _). split.
  - apply splitAt_fst_not_in.
  - intros Hin. apply splitAt_fst_subseteq in Hin.
    by apply splitAt_fst_not_in in Hin.
Qed.

Lemma splitAt_app_fresh (c : N) (a rest : str) :
  c ∉ a → Js.splitAt c (a ++ c :: rest) = (a, Some rest).
Proof.
  induction a as [|x a IH]; simpl; intros Hc.
  - by rewrite bool_decide_eq_true_2.
  - apply not_elem_of_cons in Hc as [Hx Ha].
    rewrite bool_decide_eq_false_2 by congruence. by rewrite IH.
Qed.

Lemma splitAt_fresh (c : N) (a : str) : c ∉ a → Js.splitAt c a = (a, None).
Proof.
  induction a as [|x a IH]; simpl; intros Hc; [done|].
  apply not_elem_of_cons in Hc as [Hx Ha].
  rewrite bool_decide_eq_false_2 by congruence. by rewrite IH.
Qed.

Lemma newURL_toString (u : Js.URL) : wellFormed u → Js.newURL (Js.toString u) = u.
Proof.
  destruct u as [b q f]. intros (Hq & Hh & Hquery). simpl in *.
  unfold Js.newURL, Js.toString; simpl.
  assert (Js.numberSign ∉ b ++ Js.withMark Js.question q) as Hfresh.
  { rewrite not_elem_of_app. split; [done|].
    destruct q as [q|]; simpl; [|apply not_elem_of_nil].
    rewrite not_elem_of_cons. split; [done | by apply Hquery]. }
  assert (Js.splitAt Js.question (b ++ Js.withMark Js.question q) = (b, q)) as Hsplit.
  { destruct q as [q|]; simpl.
    - by apply splitAt_app_fresh.
    - rewrite app_nil_r. by apply splitAt_fresh. }
  destruct f as [f|]; simpl.
  - rewrite app_assoc, splitAt_app_fresh by done. by rewrite Hsplit.
  - rewrite app_nil_r, splitAt_fresh by done. by rewrite Hsplit.
Qed.

Lemma setUrl_object (d : ClientRequest) (u : Js.URL) :
  setUrl d (UrlObject u)
  = makeInternal (method d)
      (Js.base (Js.newURL (Js.toString u)))
      (Js.searchParams (Js.newURL (Js.toString u)))
      (match Js.fragment (Js.newURL (Js.toString u)) with
       | Some (c :: f) => Some (c :: f)
       | _ => None
       end)
      (headers d) (body d).
Proof.
  unfold setUrl, Js.toString at 1. cbn [Js.clearHash Js.clearSearch Js.base
    Js.query Js.fragment Js.withMark]. rewrite !app_nil_r.
  unfold Js.getHash, UrlParams.fromInput.
  by destruct (Js.fragment _) as [[|c f]|].
Qed.

Lemma make_url (M : Method) (u : UrlInput) (o : option Options.NoUrl) :
  url (make M u o) = url (setUrl empty u).
Proof.
  unfold make. rewrite modify_url.
  assert (Options.url (Options.withMethodAndUrl M u o) = Some u) as ->
    by (by destruct o).
  unfold ifTruthy. destruct (truthyUrl u) eqn:Ht; [done|].
  by destruct u as [[|c s]|u].
Qed.

(** C4, as amended. A URL given as a parsed-URL object is decomposed:
    for every descriptor [d], method [M], options [o] and URL object [u],
    the url of [setUrl d u] and of [make M u o] is the URL without its
    query and fragment and contains neither ['?'] nor ['#'], the query
    parameters of [setUrl d u] are those of the query of [u], and its hash
    is the fragment of [u] when that is not empty. A URL given as a string
    is stored as it is. Every field setter other than [setUrl] leaves the
    url as it was. *)
Theorem url_object_decomposed (d : ClientRequest) (M : Method)
    (o : option Options.NoUrl) (u : Js.URL) :
  let clone := Js.newURL (Js.toString u) in
  url (setUrl d (UrlObject u)) = Js.base clone
  ∧ url (make M (UrlObject u) o) = Js.base clone
  ∧ (Js.question ∉ url (setUrl d (UrlObject u)))
  ∧ (Js.numberSign ∉ url (setUrl d (UrlObject u)))
  ∧ (Js.question ∉ url (make M (UrlObject u) o))
  ∧ (Js.numberSign ∉ url (make M (UrlObject u) o))
  ∧ urlParams (setUrl d (UrlObject u)) = Js.searchParams clone
  ∧ hash (setUrl d (UrlObject u))
    = match Js.fragment clone with Some (c :: f) => Some (c :: f) | _ => None end
  ∧ (∀ s, url (setUrl d (UrlString s)) = s ∧ url (make M (UrlString s) o) = s)
  ∧ (∀ s : Setter, url (runSetter s d) = url d ∨ ∃ v, s = SetUrl v).
Proof.
  intros clone.
  assert (url (setUrl d (UrlObject u)) = Js.base clone) as Hs
    by (by rewrite setUrl_object).
  assert (url (make M (UrlObject u) o) = Js.base clone) as Hm
    by (by rewrite make_url, setUrl_object).
  rewrite Hs, Hm. destruct (newURL_base_clean (Js.toString u)) as [Hq Hh].
  repeat split; try done.
  - by rewrite setUrl_object.
  - by rewrite make_url.
  - intros [m|v|k v|i|k v|i|k v|i|h| |b]; simpl; eauto.
Qed.

(** C4, counterexample. A request made from a full URL string keeps the
    query and the fragment in its url. *)
Lemma url_string_not_decomposed :
  let r := make GET (UrlString (lit "https://h/p?a=1#f")) None in
  ¬ ((Js.question ∉ url r) ∧ (Js.numberSign ∉ url r)).
Proof.
  intros r [Hq _]. apply Hq. vm_compute. set_solver.
Qed.

(** C5. The request made from the parsed URL "https://h/p?a=1&b=2#frag"
    has url "https://h/p", query parameters a=1 and b=2 in this order and
    hash "frag"; its url, "?", its encoded parameters, "#" and its hash
    make the input again, which parses to the same URL object. [setUrl] on
    any request gives the same three fields. *)
Theorem url_roundtrip_example (M : Method) (d : ClientRequest) :
  let input := lit "https://h/p?a=1&b=2#frag" in
  let r := make M (UrlObject (Js.newURL input)) None in
  url r = lit "https://h/p"
  ∧ urlParams r = [(lit "a", lit "1"); (lit "b", lit "2")]
  ∧ hash r = Some (lit "frag")
  ∧ reserialize r = input
  ∧ Js.newURL (reserialize r) = Js.newURL input
  ∧ url (setUrl d (UrlObject (Js.newURL input))) = lit "https://h/p"
  ∧ urlParams (setUrl d (UrlObject (Js.newURL input)))
    = [(lit "a", lit "1"); (lit "b", lit "2")]
  ∧ hash (setUrl d (UrlObject (Js.newURL input))) = Some (lit "frag").
Proof.
  intros input r. subst r input.
  rewrite make_plain. repeat split; by destruct M.
Qed.

(** *** The field setters *)

Lemma setter_sameField (s : Setter) (d : ClientRequest) (f : Field) :
  f ∈ writes s ∨ sameField f d (runSetter s d).
Proof.
  destruct s as [m|[v|v]|k v|i|k v|i|k v|i|h| |b], f; simpl;
    try (by right); try (left; set_solver);
    right; apply setBody_preserves.
Qed.

Lemma callOn_fresh (f : ClientRequest → ClientRequest) (σ : Store) (self : nat)
    (d : ClientRequest) :
  σ !! self = Some d →
  callOn f self σ = Some (length σ, σ ++ [f d])
  ∧ length σ ≠ self
  ∧ (σ ++ [f d]) !! length σ = Some (f d)
  ∧ (∀ a x, σ !! a = Some x → (σ ++ [f d]) !! a = Some x).
Proof.
  intros Hd. unfold callOn. rewrite Hd. simpl. repeat split.
  - apply lookup_lt_Some in Hd. lia.
  - by rewrite lookup_app_r, Nat.sub_diag.
  - intros a x Ha. by apply lookup_app_l_Some.
Qed.

(** C2, as amended. For every field setter [s] among setMethod, setUrl,
    setHeader(s), setUrlParam(s), appendUrlParam(s), setHash, removeHash
    and setBody, and every descriptor [d] held in the store at [self]:
    the call creates a new object for its result and leaves [d], and every
    other object of the store, as it was; in the result only the fields
    that the setter writes are replaced, every other field being equal to
    that of [d]. The setter writes one field, except that [setUrl] with a
    URL object writes url, urlParams and hash, and that [setBody] writes
    headers and body. *)
Theorem setter_frame (s : Setter) (σ : Store) (self : nat) (d : ClientRequest) :
  σ !! self = Some d →
  ∃ r σ',
    callOn (runSetter s) self σ = Some (r, σ')
    ∧ σ' !! self = Some d
    ∧ (∀ a x, σ !! a = Some x → σ' !! a = Some x)
    ∧ r ≠ self
    ∧ σ' !! r = Some (runSetter s d)
    ∧ (∀ f, f ∈ writes s ∨ sameField f d (runSetter s d))
    ∧ ((∃ f, writes s = [f])
       ∨ (∃ u, s = SetUrl (UrlObject u)
               ∧ writes s = [FUrl; FUrlParams; FHash])
       ∨ (∃ b, s = SetBody b ∧ writes s = [FHeaders; FBody])).
Proof.
  intros Hd.
  destruct (callOn_fresh (runSetter s) σ self d Hd) as (Hcall & Hne & Hnew & Hold).
  exists (length σ), (σ ++ [runSetter s d]).
  repeat split; try done.
  - by apply Hold.
  - apply setter_sameField.
  - destruct s as [m|[v|v]|k v|i|k v|i|k v|i|h| |b]; simpl; eauto.
Qed.

Lemma setter_frame_witness :
  [empty] !! 0%nat = Some empty
  ∧ ∃ r σ', callOn (runSetter (SetMethod POST)) 0 [empty] = Some (r, σ')
            ∧ σ' !! 0%nat = Some empty.
Proof.
  split; [reflexivity|].
  destruct (setter_frame (SetMethod POST) [empty] 0 empty eq_refl)
    as (r & σ' & Hcall & Hself & _).
  exists r, σ'. split; assumption.
Defined.

(** C2, counterexample. [setBody] with a text body replaces two fields
    of the empty request, its headers and its body: there is no single
    field outside of which the result equals the input. *)
Lemma setBody_replaces_two_fields :
  let d := empty in
  let d' := setBody d (internalBody.text (lit "hi") (lit "text/plain")) in
  ¬ (∃ f, ∀ g, g ≠ f → sameField g d d').
Proof.
  intros d d' [f Hf].
  assert (¬ sameField FBody d d') as Hbody by (by simpl).
  assert (¬ sameField FHeaders d d') as Hheaders.
  { simpl. intros Heq.
    apply (f_equal (fun h : Headers.Headers => h !! contentTypeKey)) in Heq.
    vm_compute in Heq. discriminate Heq. }
  destruct f; first [by apply Hbody, Hf | by apply Hheaders, Hf].
Qed.

(** *** [modify] *)

Lemma assign_comm (o : Options.t) (e1 e2 : Options.Entry) :
  Options.key e1 ≠ Options.key e2 →
  Options.assign (Options.assign o e1) e2 = Options.assign (Options.assign o e2) e1.
Proof. destruct e1, e2; simpl; intros Hk; congruence. Qed.

Lemma fromEntries_permutation (l l' : list Options.Entry) :
  NoDup (Options.key <$> l) → l ≡ₚ l' →
  Options.fromEntries l' = Options.fromEntries l.
Proof.
  unfold Options.fromEntries. generalize Options.none.
  intros o Hnd Hp. revert o Hnd.
  induction Hp as [|x l l' Hp IH|x y l|l l' l'' Hp1 IH1 Hp2 IH2]; intros o Hnd.
  - done.
  - simpl. apply IH. by apply NoDup_cons in Hnd as [_ ?].
  - simpl. f_equal. apply assign_comm.
    simpl in Hnd. apply NoDup_cons in Hnd as [Hy _].
    rewrite not_elem_of_cons in Hy. by destruct Hy.
  - rewrite IH2, IH1; [done | done |]. by rewrite <- Hp1.
Qed.

Lemma modify_applyInOrder (d : ClientRequest) (o : Options.t) :
  modify d o = applyInOrder d o.
Proof. reflexivity. Qed.

(** C3, as amended. For every descriptor [d] and options object,
    [modify] applies, for each option that is present with a truthy value
    (a present option whose value is falsy, such as an empty-string url or
    hash, is passed over), the corresponding single-field setter, in the
    order method, url, headers, urlParams, hash, body, accept, acceptJson,
    whatever the enumeration order of the keys of the object; with
    [{url: "/new", accept: "application/json"}], in either order of the
    keys, the result has url "/new" and Accept header
    "application/json". *)
Theorem modify_fixed_order (d : ClientRequest) (l l' : list Options.Entry) :
  NoDup (Options.key <$> l) → l ≡ₚ l' →
  modify d (Options.fromEntries l') = applyInOrder d (Options.fromEntries l)
  ∧ url (modify d (Options.fromEntries
           [Options.url_ (UrlString (lit "/new"));
            Options.accept_ (lit "application/json")])) = lit "/new"
  ∧ headers (modify d (Options.fromEntries
           [Options.url_ (UrlString (lit "/new"));
            Options.accept_ (lit "application/json")])) !! lit "accept"
    = Some (lit "application/json")
  ∧ modify d (Options.fromEntries
           [Options.accept_ (lit "application/json");
            Options.url_ (UrlString (lit "/new"))])
    = modify d (Options.fromEntries
           [Options.url_ (UrlString (lit "/new"));
            Options.accept_ (lit "application/json")]).
Proof.
  intros Hnd Hp. repeat split.
  - by rewrite (fromEntries_permutation l l').
  - change (headers (setHeader (setUrl d (UrlString (lit "/new")))
              (lit "Accept") (lit "application/json")) !! lit "accept"
            = Some (lit "application/json")).
    cbn [setHeader headers]. rewrite lookup_set.
    change (Js.toLowerCase (lit "Accept")) with (lit "accept").
    by rewrite decide_True.
Qed.

Lemma modify_fixed_order_witness :
  NoDup (Options.key <$> [Options.accept_ (lit "text/html"); Options.method_ PUT])
  ∧ [Options.accept_ (lit "text/html"); Options.method_ PUT]
    ≡ₚ [Options.method_ PUT; Options.accept_ (lit "text/html")]
  ∧ modify empty
      (Options.fromEntries [Options.method_ PUT; Options.accept_ (lit "text/html")])
    = applyInOrder empty
        (Options.fromEntries [Options.accept_ (lit "text/html"); Options.method_ PUT]).
Proof.
  assert (NoDup (Options.key <$>
            [Options.accept_ (lit "text/html"); Options.method_ PUT])) as Hnd.
  { apply (bool_decide_unpack _). vm_compute. exact I. }
  assert ([Options.accept_ (lit "text/html"); Options.method_ PUT]
          ≡ₚ [Options.method_ PUT; Options.accept_ (lit "text/html")]) as Hp
    by apply perm_swap.
  split; [exact Hnd|]. split; [exact Hp|].
  exact (proj1 (modify_fixed_order empty _ _ Hnd Hp)).
Defined.

(** C3, counterexample. An options object whose url is present and is
    the empty string does not make [modify] apply [setUrl]. *)
Lemma modify_skips_empty_url :
  let d := setUrl empty (UrlString (lit "/old")) in
  let o := Options.fromEntries [Options.url_ (UrlString [])] in
  Options.url o = Some (UrlString []) ∧ ¬ (modify d o = setUrl d (UrlString [])).
Proof.
  split; [reflexivity|]. intros Heq.
  apply (f_equal url) in Heq. vm_compute in Heq. discriminate Heq.
Qed.

(** *** Base64 *)

Lemma div_small_bound (a k q : N) : a < k * q → a / k < q.
Proof. apply N.Div0.div_lt_upper_bound. Qed.

Lemma div_add_small (r k x : N) : x < k → (r * k + x) / k = r.
Proof. intros Hx. symmetry. apply (N.div_unique _ k r x); lia. Qed.

Lemma mod_add_small (r k x : N) : x < k → (r * k + x) mod k = x.
Proof. intros Hx. symmetry. apply (N.mod_unique _ k r x); lia. Qed.

Lemma div_mod_back (a k : N) : a / k * k + a mod k = a.
Proof. rewrite (N.mul_comm (a / k) k). symmetry. apply N.div_mod'. Qed.

Lemma sextets (a b c : N) :
  a ≤ 255 → b ≤ 255 → c ≤ 255 →
  a / 4 < 64 ∧ a mod 4 * 16 + b / 16 < 64 ∧ b mod 16 * 4 + c / 64 < 64
  ∧ c mod 64 < 64 ∧ a mod 4 * 16 < 64 ∧ b mod 16 * 4 < 64.
Proof.
  intros Ha Hb Hc.
  assert (a / 4 < 64) by (apply div_small_bound; lia).
  assert (b / 16 < 16) by (apply div_small_bound; lia).
  assert (c / 64 < 4) by (apply div_small_bound; lia).
  assert (a mod 4 < 4) by (apply N.mod_lt; lia).
  assert (b mod 16 < 16) by (apply N.mod_lt; lia).
  assert (c mod 64 < 64) by (apply N.mod_lt; lia).
  lia.
Qed.

Lemma octets (a b c : N) :
  a ≤ 255 → b ≤ 255 → c ≤ 255 →
  a / 4 * 4 + (a mod 4 * 16 + b / 16) / 16 = a
  ∧ (a mod 4 * 16 + b / 16) mod 16 * 16 + (b mod 16 * 4 + c / 64) / 4 = b
  ∧ (b mod 16 * 4 + c / 64) mod 4 * 64 + c mod 64 = c.
Proof.
  intros Ha Hb Hc.
  assert (b / 16 < 16) by (apply div_small_bound; lia).
  assert (c / 64 < 4) by (apply div_small_bound; lia).
  rewrite !div_add_small, !mod_add_small by done.
  by rewrite !div_mod_back.
Qed.

Lemma octets_short (a b : N) :
  a ≤ 255 → b ≤ 255 →
  a / 4 * 4 + (a mod 4 * 16) / 16 = a
  ∧ a / 4 * 4 + (a mod 4 * 16 + b / 16) / 16 = a
  ∧ (a mod 4 * 16 + b / 16) mod 16 * 16 + (b mod 16 * 4) / 4 = b.
Proof.
  intros Ha Hb.
  assert (b / 16 < 16) by (apply div_small_bound; lia).
  rewrite !N.div_mul by done.
  rewrite !div_add_small, !mod_add_small by done.
  by rewrite !div_mod_back.
Qed.

Ltac split_comparisons :=
  repeat match goal with
    | |- context [N.ltb ?a ?b] => destruct (N.ltb_spec a b)
    | |- context [N.leb ?a ?b] => destruct (N.leb_spec a b)
    | |- context [N.eqb ?a ?b] => destruct (N.eqb_spec a b)
    end.

Lemma b64index_b64char (i : N) : i < 64 → Js.b64index (Js.b64char i) = Some i.
Proof.
  intros Hi. unfold Js.b64char.
  destruct (N.ltb_spec i 26); [|destruct (N.ltb_spec i 52);
    [|destruct (N.ltb_spec i 62); [|destruct (N.eqb_spec i 62)]]];
    unfold Js.b64index; split_comparisons; simpl; try lia; f_equal; lia.
Qed.

Lemma b64char_not_pad (i : N) : Js.b64char i ≠ Js.pad.
Proof.
  unfold Js.b64char, Js.pad. split_comparisons; lia.
Qed.

Lemma base64_nil_inv (bs : list N) : Js.base64 bs = [] → bs = [].
Proof. by destruct bs as [|a [|b [|c rest]]]. Qed.

Lemma list_ind3 {A} (P : list A → Prop) :
  P [] → (∀ a, P [a]) → (∀ a b, P [a; b]) →
  (∀ a b c l, P l → P (a :: b :: c :: l)) → ∀ l, P l.
Proof.
  intros H0 H1 H2 H3.
  fix IH 1. intros [|a [|b [|c l]]]; [done..|]. apply H3, IH.
Qed.

Ltac decode_sextets :=
  repeat (rewrite ?b64index_b64char by done; simpl;
          rewrite ?bool_decide_eq_false_2 by apply b64char_not_pad).

Lemma unbase64_last_full (a b c : N) :
  a ≤ 255 → b ≤ 255 → c ≤ 255 →
  Js.unbase64_last (Js.b64char (a / 4)) (Js.b64char (a mod 4 * 16 + b / 16))
    (Js.b64char (b mod 16 * 4 + c / 64)) (Js.b64char (c mod 64))
  = Some [a; b; c].
Proof.
  intros Ha Hb Hc. unfold Js.unbase64_last.
  destruct (sextets a b c Ha Hb Hc) as (? & ? & ? & ? & ? & ?).
  decode_sextets.
  destruct (octets a b c Ha Hb Hc) as (-> & -> & ->). done.
Qed.

Lemma atob_group (w x y z : N) (rest : str) :
  rest ≠ [] →
  Js.atob (w :: x :: y :: z :: rest)
  = i ← Js.b64index w; j ← Js.b64index x; k ← Js.b64index y; l ← Js.b64index z;
    r ← Js.atob rest;
    Some (i * 4 + j / 16 :: j mod 16 * 16 + k / 4 :: k mod 4 * 64 + l :: r).
Proof. by destruct rest. Qed.

Lemma atob_base64 (bs : list N) :
  Forall (fun b => b ≤ 255) bs → Js.atob (Js.base64 bs) = Some bs.
Proof.
  induction bs as [|a|a b|a b c l IH] using list_ind3; intros Hbs.
  - done.
  - apply Forall_cons in Hbs as [Ha _].
    destruct (sextets a 0 0 Ha) as (? & _ & _ & _ & ? & _); [lia..|].
    cbn [Js.base64 Js.atob]. unfold Js.unbase64_last.
    decode_sextets.
    destruct (octets_short a 0 Ha) as (-> & _); [lia|]. done.
  - apply Forall_cons in Hbs as [Ha Hbs]. apply Forall_cons in Hbs as [Hb _].
    destruct (sextets a b 0 Ha Hb) as (? & ? & _ & _ & _ & ?); [lia|].
    cbn [Js.base64 Js.atob]. unfold Js.unbase64_last.
    decode_sextets.
    destruct (octets_short a b Ha Hb) as (_ & -> & ->). done.
  - apply Forall_cons in Hbs as [Ha Hbs]. apply Forall_cons in Hbs as [Hb Hbs].
    apply Forall_cons in Hbs as [Hc Hl].
    cbn [Js.base64]. destruct (decide (l = [])) as [->|Hne].
    + by apply unbase64_last_full.
    + rewrite atob_group by (by intros ?%base64_nil_inv).
      destruct (sextets a b c Ha Hb Hc) as (? & ? & ? & ? & _ & _).
      rewrite (IH Hl), !b64index_b64char by done. simpl.
      destruct (octets a b c Ha Hb Hc) as (-> & -> & ->). done.
Qed.

Lemma isLatin1_spec (s : str) : Js.isLatin1 s = true ↔ Forall (fun b => b ≤ 255) s.
Proof.
  unfold Js.isLatin1. rewrite forallb_forall, Forall_forall.
  split; intros H x Hx.
  - apply N.leb_le, H. by apply list_elem_of_In.
  - apply N.leb_le, H. by apply list_elem_of_In.
Qed.

(** *** [basicAuth] and the fallible body setters *)

Lemma basicAuth_latin1 (d : ClientRequest) (u p : str) :
  Js.isLatin1 u = true → Js.isLatin1 p = true →
  basicAuth d u p
  = inr (setHeader d (lit "Authorization")
           (lit "Basic " ++ Js.base64 (u ++ [Js.colon] ++ p)))
  ∧ Js.atob (Js.base64 (u ++ [Js.colon] ++ p)) = Some (u ++ [Js.colon] ++ p).
Proof.
  intros Hu Hp.
  assert (Js.isLatin1 (u ++ [Js.colon] ++ p) = true) as Hall.
  { unfold Js.isLatin1 in *. rewrite !forallb_app, Hu, Hp. done. }
  split.
  - unfold basicAuth, Js.btoa. by rewrite Hall.
  - by apply atob_base64, isLatin1_spec.
Qed.

(** C8, as amended. For every descriptor [d] and every username and
    password whose code units are all at most 0xFF, [basicAuth] returns
    [d] with the Authorization header set to "Basic " followed by base64
    text that decodes to username, ":" and password, every other header
    and every other field being as in [d]. The inputs are not examined for
    a ":" of their own: credentials with the same joined text are given
    the same header. *)
Theorem basicAuth_header (d : ClientRequest) (u p : str) :
  Js.isLatin1 u = true → Js.isLatin1 p = true →
  ∃ r b64,
    basicAuth d u p = inr r
    ∧ headers r !! lit "authorization" = Some (lit "Basic " ++ b64)
    ∧ Js.atob b64 = Some (u ++ [Js.colon] ++ p)
    ∧ (∀ k, k = lit "authorization" ∨ headers r !! k = headers d !! k)
    ∧ method r = method d ∧ url r = url d ∧ urlParams r = urlParams d
    ∧ hash r = hash d ∧ body r = body d
    ∧ (∀ u' p', u' ++ [Js.colon] ++ p' = u ++ [Js.colon] ++ p →
                basicAuth d u' p' = inr r).
Proof.
  intros Hu Hp. destruct (basicAuth_latin1 d u p Hu Hp) as [Hr Hdec].
  eexists _, _. split; [exact Hr|]. cbn [setHeader headers method url urlParams
    hash body]. repeat split; try done.
  - rewrite lookup_set.
    change (Js.toLowerCase (lit "Authorization")) with (lit "authorization").
    by rewrite decide_True.
  - intros k. rewrite lookup_set.
    change (Js.toLowerCase (lit "Authorization")) with (lit "authorization").
    case_decide; [by left | by right].
  - intros u' p' Heq. rewrite <- Hr. unfold basicAuth. by rewrite Heq.
Qed.

Lemma basicAuth_header_witness :
  Js.isLatin1 (lit "a:b") = true ∧ Js.isLatin1 (lit "c") = true
  ∧ ∃ r b64, basicAuth empty (lit "a:b") (lit "c") = inr r
             ∧ headers r !! lit "authorization" = Some (lit "Basic " ++ b64).
Proof.
  split; [reflexivity|]. split; [reflexivity|].
  destruct (basicAuth_header empty (lit "a:b") (lit "c") eq_refl eq_refl)
    as (r & b64 & Hr & Hh & _).
  exists r, b64. split; assumption.
Defined.

(** C8, counterexample. With a username that has a code unit above 0xFF,
    [basicAuth] throws and returns no descriptor, so no header is set. *)
Lemma basicAuth_rejects_wide_username :
  ¬ (∃ r, basicAuth empty [0x4E2D] (lit "secret") = inr r).
Proof. intros [r Hr]. vm_compute in Hr. discriminate Hr. Qed.

Lemma unknown_nested_ind (P : Js.unknown → Prop) :
  P Js.VNull → (∀ b, P (Js.VBool b)) → (∀ z, P (Js.VBigInt z)) →
  (∀ items, Forall P items → P (Js.VArray items)) → ∀ v, P v.
Proof.
  intros Hnull Hbool Hbig Harr.
  fix IH 1. intros [|b|z|items]; [done..|].
  apply Harr. induction items as [|x items IHitems]; constructor; [apply IH | done].
Qed.

Lemma JSON_stringify_refuses (v : Js.unknown) :
  if hasBigInt v
  then Js.JSON_stringify v = inl Js.TypeError
  else ∃ s, Js.JSON_stringify v = inr s.
Proof.
  induction v as [|b|z|items IH] using unknown_nested_ind.
  - simpl. eauto.
  - destruct b; simpl; eauto.
  - done.
  - cbn [hasBigInt Js.JSON_stringify].
    match goal with
    | |- context [match ?e items with inl _ => _ | inr _ => _ end] =>
        set (each := e)
    end.
    assert (if existsb hasBigInt items
            then each items = inl Js.TypeError
            else ∃ parts, each items = inr parts) as Heach.
    { induction IH as [|x l Hx Hl IHl]; [simpl; eauto|].
      cbn [existsb]. subst each. cbn. fold Js.JSON_stringify.
      destruct (hasBigInt x).
      - by rewrite Hx.
      - destruct Hx as [sx ->]. cbn [orb].
        destruct (existsb hasBigInt l).
        + by rewrite IHl.
        + destruct IHl as [parts ->]. eauto. }
    destruct (existsb hasBigInt items).
    + by rewrite Heach.
    + destruct Heach as [parts ->]. eauto.
Qed.

Lemma jsonBody_outcome (d : ClientRequest) (v : Js.unknown) :
  if hasBigInt v
  then jsonBody d v () = inl (Body.JsonError Js.TypeError)
       ∧ unsafeJsonBody d v = inl Js.TypeError
  else ∃ s, jsonBody d v ()
            = inr (setBody d (internalBody.text s (lit "application/json")))
            ∧ unsafeJsonBody d v
              = inr (setBody d (internalBody.text s (lit "application/json"))).
Proof.
  pose proof (JSON_stringify_refuses v) as Hv.
  unfold jsonBody, unsafeJsonBody, Effect.map, internalBody.json, Effect.try,
    internalBody.unsafeJson.
  destruct (hasBigInt v).
  - by rewrite Hv.
  - destruct Hv as [s ->]. eauto.
Qed.

Lemma basicAuth_outcome (d : ClientRequest) (u p : str) :
  (∃ r, basicAuth d u p = inr r)
  ∨ (basicAuth d u p = inl Js.InvalidCharacterError
     ∧ (Js.isLatin1 u = false ∨ Js.isLatin1 p = false)).
Proof.
  unfold basicAuth, Js.btoa, Js.isLatin1. rewrite !forallb_app.
  destruct (forallb _ u), (forallb _ p); simpl; eauto.
Qed.




(** ** Further properties of the builder *)

(** *** Joining paths *)

Lemma endsWith_app (c : N) (u p : str) :
  p ≠ [] → Js.endsWith c (u ++ p) = Js.endsWith c p.
Proof.
  intros Hp. unfold Js.endsWith. rewrite last_app.
  destruct (last p) eqn:Hl; [done|]. by apply last_None in Hl.
Qed.

Lemma startsWith_app (c : N) (p q : str) :
  p ≠ [] → Js.startsWith c (p ++ q) = Js.startsWith c p.
Proof. by destruct p. Qed.

Lemma endsWith_nil (c : N) : Js.endsWith c [] = false.
Proof. done. Qed.

Lemma url_appendUrl (d : ClientRequest) (p : str) :
  url (appendUrl d p)
  = if Js.endsWith Js.slash (url d) && Js.startsWith Js.slash p
    then url d ++ drop 1 p else url d ++ p.
Proof. done. Qed.

(** The empty path is neutral for [appendUrl] and [prependUrl], and the
    two are mirror images: appending [p] to a request with url [u] gives
    the url that prepending [u] to a request with url [p] gives. *)
Theorem appendUrl_prependUrl_mirror (d : ClientRequest) (p : str) :
  appendUrl d [] = d
  ∧ prependUrl d [] = d
  ∧ url (appendUrl d p) = url (prependUrl (setUrl d (UrlString p)) (url d))
  ∧ url (prependUrl d p) = url (appendUrl (setUrl d (UrlString p)) (url d)).
Proof.
  destruct d as [m u ps h hs b]. unfold appendUrl, prependUrl. simpl.
  rewrite andb_false_r, app_nil_r. done.
Qed.

(** Appending two paths one after the other gives the request that
    appending their join gives: the slash rule of [appendUrl] is
    associative. *)
Theorem appendUrl_assoc (d : ClientRequest) (p q : str) :
  appendUrl (appendUrl d p) q
  = appendUrl d (url (appendUrl (setUrl d (UrlString p)) q)).
Proof.
  destruct d as [m u ps h hs b]. unfold appendUrl at 1 3. cbn [method url
    urlParams hash headers body]. f_equal.
  rewrite !url_appendUrl. cbn [setUrl url]. unfold Js.slice1.
  destruct p as [|c p'].
  { cbn [Js.startsWith Js.endsWith last]. rewrite andb_false_r, app_nil_r.
    cbn [andb app]. done. }
  set (X := if Js.endsWith Js.slash (c :: p') && Js.startsWith Js.slash q
            then drop 1 q else q).
  assert ((if Js.endsWith Js.slash (c :: p') && Js.startsWith Js.slash q
           then (c :: p') ++ drop 1 q else (c :: p') ++ q) = (c :: p') ++ X) as ->
    by (subst X; by destruct (_ && _)).
  rewrite (startsWith_app _ (c :: p') X) by done.
  cbn [app Js.startsWith]. rewrite !skipn_cons, !drop_0.
  assert (Js.endsWith Js.slash
            (if Js.endsWith Js.slash u && bool_decide (c = Js.slash)
             then u ++ p' else u ++ c :: p')
          = Js.endsWith Js.slash (c :: p')) as HE.
  { destruct (Js.endsWith Js.slash u && bool_decide (c = Js.slash)) eqn:Hb.
    - apply andb_true_iff in Hb as [Hu Hc]. apply bool_decide_eq_true in Hc as ->.
      destruct p' as [|c' p''].
      + rewrite app_nil_r, Hu. done.
      + rewrite endsWith_app by done.
        change (Js.slash :: c' :: p'') with ([Js.slash] ++ c' :: p'').
        by rewrite endsWith_app.
    - by rewrite endsWith_app. }
  rewrite HE. fold X.
  destruct (Js.endsWith Js.slash u && bool_decide (c = Js.slash));
    destruct (Js.endsWith Js.slash (c :: p') && Js.startsWith Js.slash q) eqn:Hq;
    subst X; rewrite ?Hq; by rewrite <- ?app_assoc.
Qed.

(** *** Authorization *)

Lemma isLatin1_joined (u p : str) :
  Js.isLatin1 (u ++ [Js.colon] ++ p) = Js.isLatin1 u && Js.isLatin1 p.
Proof. unfold Js.isLatin1. by rewrite !forallb_app. Qed.

Lemma basicAuth_inr (d r : ClientRequest) (u p : str) :
  basicAuth d u p = inr r →
  Js.isLatin1 u = true ∧ Js.isLatin1 p = true
  ∧ r = setHeader d (lit "Authorization")
          (lit "Basic " ++ Js.base64 (u ++ [Js.colon] ++ p)).
Proof.
  unfold basicAuth, Js.btoa. rewrite isLatin1_joined.
  destruct (Js.isLatin1 u), (Js.isLatin1 p); simpl; intros [=]; by subst.
Qed.

(** [basicAuth] throws exactly when the username or the password has a
    code unit above 0xFF; what it throws is an [InvalidCharacterError],
    whatever the request. *)
Theorem basicAuth_throws_iff (d : ClientRequest) (u p : str) :
  (basicAuth d u p = inl Js.InvalidCharacterError
   ↔ Js.isLatin1 u = false ∨ Js.isLatin1 p = false)
  ∧ ((∃ r, basicAuth d u p = inr r)
     ↔ Js.isLatin1 u = true ∧ Js.isLatin1 p = true)
  ∧ basicAuth d u p ≠ inl Js.TypeError.
Proof.
  unfold basicAuth, Js.btoa. rewrite isLatin1_joined.
  destruct (Js.isLatin1 u), (Js.isLatin1 p); simpl;
    (split; [|split]); try done; split;
    first [ by intros [? [=]] | by intros [[=] [=]] | by intros [[=]|[=]]
          | by intros [=] | by eauto ].
Qed.

(** The Authorization header that [basicAuth] writes determines the
    joined credentials: two calls with the same result were given the
    same text "username:password". *)
Theorem basicAuth_injective (d r : ClientRequest) (u p u' p' : str) :
  basicAuth d u p = inr r → basicAuth d u' p' = inr r →
  u ++ [Js.colon] ++ p = u' ++ [Js.colon] ++ p'.
Proof.
  intros (Hu & Hp & Hr)%basicAuth_inr (Hu' & Hp' & Hr')%basicAuth_inr.
  rewrite Hr in Hr'. apply (f_equal headers) in Hr'. cbn [setHeader headers] in Hr'.
  apply (f_equal (fun h : Headers.Headers => h !! lit "authorization")) in Hr'.
  rewrite !lookup_set in Hr'.
  change (Js.toLowerCase (lit "Authorization")) with (lit "authorization") in Hr'.
  rewrite !decide_True in Hr' by done.
  injection Hr' as Hb.
  assert (Js.atob (Js.base64 (u ++ [Js.colon] ++ p)) = Some (u ++ [Js.colon] ++ p)) as H1.
  { apply atob_base64, isLatin1_spec. by rewrite isLatin1_joined, Hu, Hp. }
  assert (Js.atob (Js.base64 (u' ++ [Js.colon] ++ p')) = Some (u' ++ [Js.colon] ++ p')) as H2.
  { apply atob_base64, isLatin1_spec. by rewrite isLatin1_joined, Hu', Hp'. }
  cbn [app] in *. rewrite Hb in H1. rewrite H1 in H2. by injection H2.
Qed.

Lemma basicAuth_injective_witness :
  ∃ r, basicAuth empty (lit "a") (lit "b:c") = inr r
       ∧ basicAuth empty (lit "a:b") (lit "c") = inr r
       ∧ lit "a" ++ [Js.colon] ++ lit "b:c" = lit "a:b" ++ [Js.colon] ++ lit "c".
Proof.
  eexists. split; [reflexivity|]. split; [reflexivity|].
  exact (basicAuth_injective empty _ (lit "a") (lit "b:c") (lit "a:b") (lit "c")
           eq_refl eq_refl).
Defined.

(** The Authorization header is written last-write-wins: a bearer token
    set after basic credentials leaves the request that setting the token
    alone gives, and basic credentials set after a bearer token leave the
    request that setting the credentials alone gives. *)
Theorem authorization_last_write_wins (d r : ClientRequest) (u p t : str) :
  basicAuth d u p = inr r →
  bearerToken r t = bearerToken d t
  ∧ basicAuth (bearerToken d t) u p = inr r.
Proof.
  intros Hr. pose proof Hr as (Hu & Hp & ->)%basicAuth_inr.
  unfold basicAuth, Js.btoa, bearerToken, setHeader in *.
  rewrite isLatin1_joined, Hu, Hp in *. cbn [andb method url urlParams hash
    headers body]. unfold Headers.set. by rewrite !insert_insert_eq.
Qed.

Lemma authorization_last_write_wins_witness :
  ∃ r, basicAuth empty (lit "user") (lit "pass") = inr r
       ∧ bearerToken r (lit "tok") = bearerToken empty (lit "tok").
Proof.
  eexists. split; [reflexivity|].
  exact (proj1 (authorization_last_write_wins empty _ (lit "user") (lit "pass")
                  (lit "tok") eq_refl)).
Defined.

(** *** Bodies and their headers *)

Lemma request_eq (d d' : ClientRequest) :
  method d = method d' → url d = url d' → urlParams d = urlParams d' →
  hash d = hash d' → headers d = headers d' → body d = body d' → d = d'.
Proof. destruct d, d'; simpl; by intros -> -> -> -> -> ->. Qed.

Lemma body_empty_or (b : Body.Body) : b = Body.Empty ∨ b ≠ Body.Empty.
Proof. destruct b; [by left | by right..]. Qed.

Lemma setBody_eq (d d' : ClientRequest) (b : Body.Body) :
  method d = method d' → url d = url d' → urlParams d = urlParams d' →
  hash d = hash d' →
  (∀ k, headers (setBody d b) !! k = headers (setBody d' b) !! k) →
  setBody d b = setBody d' b.
Proof.
  intros Hm Hu Hp Hh Hk.
  destruct (setBody_frame d b) as (? & ? & ? & ? & ?).
  destruct (setBody_frame d' b) as (? & ? & ? & ? & ?).
  apply request_eq; try congruence. by apply map_eq.
Qed.

(** Setting the same body twice is setting it once, and the Empty body
    set after any body leaves the request that setting the Empty body
    alone gives: the headers of the earlier body are gone. *)
Theorem setBody_idempotent (d : ClientRequest) (b : Body.Body) :
  setBody (setBody d b) b = setBody d b
  ∧ setBody (setBody d b) Body.Empty = setBody d Body.Empty.
Proof.
  destruct (setBody_frame d b) as (Hm & Hu & Hp & Hh & Hb).
  split.
  - destruct (setBody_frame (setBody d b) b) as (? & ? & ? & ? & ?).
    apply request_eq; try congruence. apply map_eq. intros k.
    destruct (body_empty_or b) as [->|Hne].
    + rewrite !setBody_lookup_empty.
      by destruct (bool_decide (k = contentTypeKey) || bool_decide (k = contentLengthKey)).
    + rewrite !(setBody_lookup_nonempty _ b) by done. unfold metadataHeader.
      repeat case_bool_decide; try done;
        repeat match goal with |- context [match ?x with _ => _ end] => destruct x end;
        done.
  - apply setBody_eq; try done. intros k. rewrite !setBody_lookup_empty.
    destruct (bool_decide (k = contentTypeKey) || bool_decide (k = contentLengthKey)) eqn:Hk;
      [done|]. apply orb_false_iff in Hk as [H1 H2].
    destruct (body_empty_or b) as [->|Hne].
    + by rewrite setBody_lookup_empty, H1, H2.
    + by rewrite setBody_lookup_nonempty, H2, H1.
Qed.

(** A body that has a non-empty content type and a non-zero content
    length overrides the previous body completely: the request is the one
    that setting this body alone gives. *)
Theorem setBody_overrides (d : ClientRequest) (b b' : Body.Body) (t : str) (n : Z) :
  Body.contentType b' = Some t → Js.truthyStr t = true →
  Body.contentLength b' = Some n → Js.truthyNum n = true →
  setBody (setBody d b) b' = setBody d b'.
Proof.
  intros Ht Htt Hn Hnt.
  assert (b' ≠ Body.Empty) as Hne by (by intros ->).
  destruct (setBody_frame d b) as (Hm & Hu & Hp & Hh & Hb).
  apply setBody_eq; try done. intros k.
  rewrite !(setBody_lookup_nonempty _ b') by done.
  rewrite Ht, Hn. unfold metadataHeader. rewrite Htt, Hnt.
  repeat case_bool_decide; try done.
  destruct (body_empty_or b) as [->|Hbne].
  - rewrite setBody_lookup_empty.
    by rewrite !bool_decide_eq_false_2.
  - rewrite setBody_lookup_nonempty by done.
    by rewrite !bool_decide_eq_false_2.
Qed.

Lemma setBody_overrides_witness :
  setBody (setBody empty (internalBody.formData []))
    (internalBody.text (lit "hi") (lit "text/plain"))
  = setBody empty (internalBody.text (lit "hi") (lit "text/plain")).
Proof.
  exact (setBody_overrides empty (internalBody.formData [])
           (internalBody.text (lit "hi") (lit "text/plain")) (lit "text/plain") 2
           eq_refl eq_refl eq_refl eq_refl).
Defined.

(** A non-Empty body without a truthy content type and without a truthy
    content length leaves every header as it was, the content-type and
    content-length headers of an earlier body included. *)
Theorem setBody_without_metadata (d : ClientRequest) (b : Body.Body) :
  b ≠ Body.Empty →
  from_option Js.truthyStr false (Body.contentType b) = false →
  from_option Js.truthyNum false (Body.contentLength b) = false →
  headers (setBody d b) = headers d.
Proof.
  intros Hne Ht Hn. apply map_eq. intros k.
  rewrite setBody_lookup_nonempty by done. unfold metadataHeader.
  destruct (Body.contentType b), (Body.contentLength b); simpl in *;
    rewrite ?Ht, ?Hn; by repeat case_bool_decide.
Qed.

Lemma setBody_without_metadata_witness :
  headers (setBody (textBody empty (lit "hi") None) (internalBody.formData []))
  = headers (textBody empty (lit "hi") None).
Proof.
  apply (setBody_without_metadata (textBody empty (lit "hi") None)
           (internalBody.formData [])); [discriminate | reflexivity | reflexivity].
Defined.

(** The content-type header after a body setter: the default of the
    setter ("text/plain", "application/octet-stream") when no content type
    is given; the given content type when it is not empty; and, when the
    empty string is given, no default and no write (the header stays as it
    was). [urlParamsBody] always writes
    "application/x-www-form-urlencoded". *)
Theorem body_setters_content_type (d : ClientRequest) (ct : option str)
    (t : str) (bytes : list N) (chunks : list (list N)) (len : option Z)
    (input : UrlParams.Input) :
  headers (textBody d t ct) !! contentTypeKey
  = contentTypeAfter (lit "text/plain") ct (headers d !! contentTypeKey)
  ∧ headers (uint8ArrayBody d bytes ct) !! contentTypeKey
    = contentTypeAfter (lit "application/octet-stream") ct (headers d !! contentTypeKey)
  ∧ headers (streamBody d chunks ct len) !! contentTypeKey
    = contentTypeAfter (lit "application/octet-stream") ct (headers d !! contentTypeKey)
  ∧ headers (urlParamsBody d input) !! contentTypeKey
    = Some (lit "application/x-www-form-urlencoded").
Proof.
  unfold textBody, uint8ArrayBody, streamBody, urlParamsBody.
  rewrite !setBody_lookup_nonempty by done.
  destruct ct as [[|c s]|]; simpl; done.
Qed.

(** A payload without bytes gets no content-length header: for the empty
    text, the empty byte array and the empty parameter list the header
    stays as it was in the request. A byte array that is not empty gets
    its length in decimal. *)
Theorem body_setters_empty_payload (d : ClientRequest) (ct : option str)
    (bytes : list N) :
  headers (textBody d [] ct) !! contentLengthKey = headers d !! contentLengthKey
  ∧ headers (urlParamsBody d []) !! contentLengthKey = headers d !! contentLengthKey
  ∧ headers (uint8ArrayBody d bytes ct) !! contentLengthKey
    = match bytes with
      | [] => headers d !! contentLengthKey
      | _ => Some (Js.numberToString (Z.of_nat (length bytes)))
      end.
Proof.
  unfold textBody, uint8ArrayBody, urlParamsBody.
  rewrite !setBody_lookup_nonempty by done.
  repeat split; try done. by destruct bytes.
Qed.

(** *** [modify] and the constructors *)

(** Options that hold no truthy value leave the request as it is, an
    empty-string url, hash or accept and [acceptJson: false] included. *)
Theorem modify_nothing_truthy (d : ClientRequest) (u : option UrlInput)
    (h a : option str) (j : option bool) :
  from_option truthyUrl false u = false →
  from_option Js.truthyStr false h = false →
  from_option Js.truthyStr false a = false →
  from_option id false j = false →
  modify d (Options.mk None u None None h None a j) = d.
Proof.
  intros Hu Hh Ha Hj. unfold modify, ifTruthy. cbn [Options.method Options.url
    Options.headers Options.urlParams Options.hash Options.body Options.accept
    Options.acceptJson].
  destruct u as [u|], h as [h|], a as [a|], j as [j|]; simpl in *;
    rewrite ?Hu, ?Hh, ?Ha, ?Hj; done.
Qed.

Lemma modify_nothing_truthy_witness :
  modify (setHash empty (lit "top"))
    (Options.mk None (Some (UrlString [])) None None (Some []) None (Some [])
       (Some false))
  = setHash empty (lit "top").
Proof.
  exact (modify_nothing_truthy (setHash empty (lit "top")) (Some (UrlString []))
           (Some []) (Some []) (Some false) eq_refl eq_refl eq_refl eq_refl).
Defined.

(** [acceptJson: true] has the last word on the Accept header: whatever
    the [accept] and [headers] options say, the result accepts
    "application/json". *)
Theorem modify_acceptJson_wins (d : ClientRequest) (o : Options.t) :
  Options.acceptJson o = Some true →
  headers (modify d o) !! lit "accept" = Some (lit "application/json").
Proof.
  intros Hj. unfold modify. cbv zeta. rewrite Hj. unfold ifTruthy at 1.
  cbn [id acceptJson accept setHeader headers]. rewrite lookup_set.
  change (Js.toLowerCase (lit "Accept")) with (lit "accept"). by rewrite decide_True.
Qed.

Lemma modify_acceptJson_wins_witness :
  headers (modify empty
             (Options.fromEntries
                [Options.acceptJson_ true; Options.accept_ (lit "text/html")]))
    !! lit "accept"
  = Some (lit "application/json").
Proof.
  exact (modify_acceptJson_wins empty
           (Options.fromEntries
              [Options.acceptJson_ true; Options.accept_ (lit "text/html")]) eq_refl).
Defined.

(** A non-empty [hash] option has the last word on the hash: it replaces
    the fragment of a URL object given as [url] in the same options. *)
Theorem modify_hash_wins (d : ClientRequest) (o : Options.t) (h : str) :
  Options.hash o = Some h → Js.truthyStr h = true →
  hash (modify d o) = Some h.
Proof.
  intros Hh Ht. unfold modify. cbv zeta.
  do 3 (rewrite (ifTruthy_preserves hash); [|step_preserves]).
  rewrite Hh. unfold ifTruthy at 1. by rewrite Ht.
Qed.

Lemma modify_hash_wins_witness :
  hash (modify empty
          (Options.fromEntries
             [Options.url_ (UrlObject (Js.newURL (lit "https://h/p#old")));
              Options.hash_ (lit "new")]))
  = Some (lit "new").
Proof.
  exact (modify_hash_wins empty
           (Options.fromEntries
              [Options.url_ (UrlObject (Js.newURL (lit "https://h/p#old")));
               Options.hash_ (lit "new")]) (lit "new") eq_refl eq_refl).
Defined.

Lemma lookup_accept_step {A} (x : option A) (truthy : A → bool)
    (f : ClientRequest → A → ClientRequest) (r : ClientRequest) (k : str) :
  (∀ r a, headers (f r a) !! k = headers r !! k) →
  headers (ifTruthy x truthy f r) !! k = headers r !! k.
Proof.
  intros Hf. unfold ifTruthy. destruct x as [a|]; [destruct (truthy a)|]; auto.
Qed.

(** The content type of the [body] option has the last word on the
    content-type header: a content-type given in the [headers] option of
    the same call is overwritten. *)
Theorem modify_body_content_type_wins (d : ClientRequest) (o : Options.t)
    (b : Body.Body) (t : str) :
  Options.body o = Some b → Body.contentType b = Some t → Js.truthyStr t = true →
  headers (modify d o) !! contentTypeKey = Some t.
Proof.
  intros Hb Hct Ht. unfold modify. cbv zeta.
  assert (b ≠ Body.Empty) as Hne by (by intros ->).
  do 2 (rewrite lookup_accept_step;
        [|intros; cbn [acceptJson accept setHeader headers]; rewrite lookup_set;
          change (Js.toLowerCase (lit "Accept")) with (lit "accept");
          by rewrite decide_False]).
  rewrite Hb. unfold ifTruthy at 1, truthyObject.
  rewrite setBody_lookup_nonempty by done.
  rewrite bool_decide_eq_false_2, bool_decide_eq_true_2 by done.
  unfold metadataHeader. by rewrite Hct, Ht.
Qed.

Lemma modify_body_content_type_wins_witness :
  headers (modify empty
             (Options.fromEntries
                [Options.headers_ [(lit "Content-Type", lit "application/xml")];
                 Options.body_ (internalBody.text (lit "{}") (lit "application/json"))]))
    !! contentTypeKey
  = Some (lit "application/json").
Proof.
  exact (modify_body_content_type_wins empty
           (Options.fromEntries
              [Options.headers_ [(lit "Content-Type", lit "application/xml")];
               Options.body_ (internalBody.text (lit "{}") (lit "application/json"))])
           (internalBody.text (lit "{}") (lit "application/json"))
           (lit "application/json") eq_refl eq_refl eq_refl).
Defined.

Lemma ifTruthy_setMethod {A} (x : option A) (truthy : A → bool)
    (f : ClientRequest → A → ClientRequest) (r : ClientRequest) (M : Method) :
  (∀ r a, f (setMethod r M) a = setMethod (f r a) M) →
  ifTruthy x truthy f (setMethod r M) = setMethod (ifTruthy x truthy f r) M.
Proof.
  intros Hf. unfold ifTruthy. destruct x as [a|]; [destruct (truthy a)|]; auto.
Qed.

Lemma later_steps_setMethod (r : ClientRequest) (o : Options.t) (M : Method) :
  modify (setMethod r M)
    (Options.mk None (Options.url o) (Options.headers o) (Options.urlParams o)
       (Options.hash o) (Options.body o) (Options.accept o) (Options.acceptJson o))
  = setMethod
      (modify r
         (Options.mk None (Options.url o) (Options.headers o) (Options.urlParams o)
            (Options.hash o) (Options.body o) (Options.accept o)
            (Options.acceptJson o))) M.
Proof.
  unfold modify. cbv zeta. cbn [Options.method Options.url Options.headers
    Options.urlParams Options.hash Options.body Options.accept Options.acceptJson].
  unfold ifTruthy at 8 16. 
  repeat (rewrite ifTruthy_setMethod; [|solve [done | by intros ? [] | by intros ? []]]).
  done.
Qed.

(** The per-method constructors differ in the method only: the request
    that one of them makes is the request that any other makes from the
    same url and options, with the method replaced. *)
Theorem make_differs_in_method (M M' : Method) (u : UrlInput)
    (o : option Options.NoUrl) :
  make M u o = setMethod (make M' u o) M.
Proof.
  assert (∀ N : Method,
    make N u o
    = setMethod
        (modify empty
           (Options.mk None
              (Options.url (Options.withMethodAndUrl N u o))
              (Options.headers (Options.withMethodAndUrl N u o))
              (Options.urlParams (Options.withMethodAndUrl N u o))
              (Options.hash (Options.withMethodAndUrl N u o))
              (Options.body (Options.withMethodAndUrl N u o))
              (Options.accept (Options.withMethodAndUrl N u o))
              (Options.acceptJson (Options.withMethodAndUrl N u o)))) N) as Hmake.
  { intros N. rewrite <- later_steps_setMethod. by destruct o. }
  rewrite (Hmake M), (Hmake M'). by destruct o.
Qed.

(** *** Setters among themselves *)

(** For a well-formed URL object [setUrl] keeps nothing of the url,
    query parameters and hash that the request had: the url is the URL
    without query and fragment, the parameters are those of its query
    (none when it has no query), and the hash is its fragment, or absent
    when the fragment is absent or empty. *)
Theorem setUrl_object_replaces (d : ClientRequest) (u : Js.URL) :
  wellFormed u →
  setUrl d (UrlObject u)
  = makeInternal (method d) (Js.base u) (Js.searchParams u)
      (match Js.fragment u with Some (c :: f) => Some (c :: f) | _ => None end)
      (headers d) (body d).
Proof. intros Hwf. by rewrite setUrl_object, newURL_toString. Qed.

Lemma setUrl_object_replaces_witness :
  setUrl (setHash (appendUrlParam empty (lit "k") (lit "v")) (lit "old"))
    (UrlObject (Js.mkURL (lit "https://h/p") None (Some [])))
  = makeInternal GET (lit "https://h/p") [] None ∅ Body.Empty.
Proof.
  apply (setUrl_object_replaces
           (setHash (appendUrlParam empty (lit "k") (lit "v")) (lit "old"))
           (Js.mkURL (lit "https://h/p") None (Some []))).
  split; [|split].
  - apply (bool_decide_unpack _). vm_compute. exact I.
  - apply (bool_decide_unpack _). vm_compute. exact I.
  - intros q Hq. discriminate Hq.
Defined.

(** The setters that replace a field outright are last-write-wins: of
    two calls only the second leaves a trace. This holds for the method,
    for a string url after a string url, for a URL object after any url,
    and for [setHash] and [removeHash] in any combination. *)
Theorem replacement_last_write_wins (d : ClientRequest) (m m' : Method)
    (s s' h h' : str) (v : UrlInput) (u : Js.URL) :
  setMethod (setMethod d m) m' = setMethod d m'
  ∧ setUrl (setUrl d (UrlString s)) (UrlString s') = setUrl d (UrlString s')
  ∧ setUrl (setUrl d v) (UrlObject u) = setUrl d (UrlObject u)
  ∧ setHash (setHash d h) h' = setHash d h'
  ∧ setHash (removeHash d) h' = setHash d h'
  ∧ removeHash (setHash d h) = removeHash d
  ∧ removeHash (removeHash d) = removeHash d.
Proof. repeat split; try done. by destruct v. Qed.

Ltac overlapping H :=
  exfalso;
  first [ solve [apply (H FMethod); simpl; repeat constructor]
        | solve [apply (H FUrl); simpl; repeat constructor]
        | solve [apply (H FUrlParams); simpl; repeat constructor]
        | solve [apply (H FHash); simpl; repeat constructor]
        | solve [apply (H FHeaders); simpl; repeat constructor]
        | solve [apply (H FBody); simpl; repeat constructor] ].

(** Setters that write different fields commute: applied in either
    order they give the same request. *)
Theorem setters_commute (s1 s2 : Setter) (d : ClientRequest) :
  differentFields s1 s2 →
  runSetter s1 (runSetter s2 d) = runSetter s2 (runSetter s1 d).
Proof.
  intros H.
  destruct s1 as [m1|[v1|v1]|k1 x1|i1|k1 x1|i1|k1 x1|i1|h1| |b1];
    destruct s2 as [m2|[v2|v2]|k2 x2|i2|k2 x2|i2|k2 x2|i2|h2| |b2];
    first [ reflexivity
          | solve [destruct b1; reflexivity]
          | solve [destruct b2; reflexivity]
          | overlapping H ].
Qed.

Lemma setters_commute_witness :
  setBody (setUrl empty (UrlObject (Js.newURL (lit "https://h/p?a=1#f"))))
    (internalBody.text (lit "hi") (lit "text/plain"))
  = setUrl (setBody empty (internalBody.text (lit "hi") (lit "text/plain")))
      (UrlObject (Js.newURL (lit "https://h/p?a=1#f"))).
Proof.
  apply (setters_commute
           (SetBody (internalBody.text (lit "hi") (lit "text/plain")))
           (SetUrl (UrlObject (Js.newURL (lit "https://h/p?a=1#f")))) empty).
  intros f H1%list_elem_of_In H2%list_elem_of_In.
  destruct f; simpl in H1, H2; intuition congruence.
Defined.

(** *** The test runner *)

Lemma logErrors_drop {Err} (errors : list Err) (i steps : nat) (log : list Err) :
  (length errors ≤ i + steps)%nat →
  Vitest.logErrors errors i steps log = log ++ drop i errors.
Proof.
  revert i log. induction steps as [|steps IH]; intros i log Hlen; simpl.
  - rewrite drop_ge by lia. by rewrite app_nil_r.
  - destruct (Nat.ltb_spec i (length errors)) as [Hi|Hi].
    + destruct (lookup_lt_is_Some_2 errors i Hi) as [e He]. rewrite He.
      rewrite IH by lia. rewrite <- app_assoc. simpl.
      by rewrite (drop_S _ _ _ He).
    + rewrite drop_ge by lia. by rewrite app_nil_r.
Qed.

(** A test whose effect succeeds resolves and logs nothing. A test whose
    effect fails rejects with the first pretty error of the cause and
    logs every other one once, in their order: what is thrown followed by
    what is logged is the list of the errors. A cause without a pretty
    error rejects with undefined and logs nothing. *)
Theorem runTest_reports_every_error {A Cause Err} (prettyErrors : Cause → list Err)
    (a : A) (cause : Cause) :
  Vitest.runTest prettyErrors (Vitest.Success (Cause:=Cause) a)
  = ([], Vitest.Resolved)
  ∧ Vitest.runTest (A:=A) prettyErrors (Vitest.Failure cause)
    = (drop 1 (prettyErrors cause),
       Vitest.Rejected (prettyErrors cause !! 0%nat))
  ∧ option_list (prettyErrors cause !! 0%nat) ++ drop 1 (prettyErrors cause)
    = prettyErrors cause.
Proof.
  split; [done|]. split.
  - unfold Vitest.runTest. by rewrite logErrors_drop by lia.
  - by destruct (prettyErrors cause).
Qed.

(** Options given to a per-method constructor act as a later [modify]
    with the same options does: making a request with options is making
    it without and modifying the result. *)
Theorem make_with_options (M : Method) (u : UrlInput) (o : Options.NoUrl) :
  make M u (Some o)
  = modify (make M u None)
      (Options.mk None None (Options.headers' o) (Options.urlParams' o)
         (Options.hash' o) (Options.body' o) (Options.accept' o)
         (Options.acceptJson' o)).
Proof. reflexivity. Qed.
